(** * Block-sparse gemv and outer-product accumulation (theano/sandbox/blocksparse.py)

    The development has two layers, as the source has:

    - the graph layer: [make_node], [grad] and [sparse_block_dot] build
      symbolic variables and apply nodes and never touch tensor data;
    - the kernel layer: the two [perform] methods of the Cpu operators run
      nested loops over numpy arrays held in a store, mutating the
      accumulator [o] either in place or in a fresh copy.

    Array elements are taken from an arbitrary type [R] with a zero, an
    addition and a multiplication.  No algebraic law is assumed of them:
    what a kernel returns is stated with the additions in the order in
    which its loops perform them, so the statements hold of rounding
    arithmetic as they do of exact arithmetic. *)

From stdpp Require Import base numbers list strings.
From Stdlib Require Import ZArith QArith.

Local Open Scope string_scope.
Local Open Scope list_scope.
Local Open Scope nat_scope.

(** ** Python exceptions raised by the module *)

Inductive exn : Type :=
| TypeError (msg : string)
| NotImplementedError (msg : string)
| AssertionError
| IndexError
| ValueError.

Definition result (A : Type) : Type := (exn + A)%type.

Definition rbind {A B : Type} (m : result A) (f : A -> result B) : result B :=
  match m with
  | inl e => inl e
  | inr a => f a
  end.

Notation "'do' x <- m ; k" := (rbind m (fun x => k))
  (at level 10, x name, m at level 100, k at level 200).

(** Apply [f] to every element, left to right, stopping at the first
    exception. *)
Fixpoint rmapM {A B : Type} (f : A -> result B) (l : list A)
    : result (list B) :=
  match l with
  | [] => inr []
  | a :: l' => do b <- f a; do bs <- rmapM f l'; inr (b :: bs)
  end.

(** ** Scalars

    The element type of the floating-point arrays, with the two operations
    the kernels use. *)

Class Scalar (R : Type) : Type := {
  rzero : R;
  radd : R -> R -> R;
  rmul : R -> R -> R
}.

(** ** numpy arrays *)

(** Object identities, and arrays nested along their axes. *)
Abbreviation loc := nat (only parsing).
Abbreviation vector R := (list R) (only parsing).
Abbreviation matrix R := (list (list R)) (only parsing).
Abbreviation tensor3 R := (list (list (list R))) (only parsing).
Abbreviation tensor4 R := (list (list (list (list R)))) (only parsing).
Abbreviation index2 := (list (list Z)) (only parsing).

Section Arrays.

Context {R : Type} `{Scalar R}.

(** The elements of an array, nested along its axes, for the ranks and
    element kinds the two kernels receive. *)
Inductive ndarray_data : Type :=
| Float0 (a : R)
| Float3 (a : tensor3 R)
| Float4 (a : tensor4 R)
| Int2 (a : index2).

(** An array object: its [shape] tuple and its elements. *)
Record ndarray : Type := mkArray {
  shape : list nat;
  data : ndarray_data
}.

(** A 2-D view or temporary, with its shape. *)
Record array2 : Type := mkArray2 {
  nrows : nat;
  ncols : nat;
  rows : matrix R
}.

(** *** Element access with a default, for stating results *)

Definition get1 (v : vector R) (k : nat) : R := nth k v rzero.
Definition get2 (m : matrix R) (j k : nat) : R := get1 (nth j m []) k.
Definition get3 (a : tensor3 R) (b j k : nat) : R := get2 (nth b a []) j k.
Definition get4 (a : tensor4 R) (p q m k : nat) : R :=
  get3 (nth p a []) q m k.
Definition geti (a : index2) (b j : nat) : Z := nth j (nth b a []) 0%Z.

(** *** Rectangular nested lists of a given shape *)

Definition shape1_ok {A : Type} (n : nat) (v : list A) : bool :=
  length v =? n.
Definition shape2_ok {A : Type} (n0 n1 : nat) (m : list (list A)) : bool :=
  (length m =? n0) && forallb (shape1_ok n1) m.
Definition shape3_ok {A : Type} (n0 n1 n2 : nat)
    (a : list (list (list A))) : bool :=
  (length a =? n0) && forallb (shape2_ok n1 n2) a.
Definition shape4_ok {A : Type} (n0 n1 n2 n3 : nat)
    (a : list (list (list (list A)))) : bool :=
  (length a =? n0) && forallb (shape3_ok n1 n2 n3) a.

(** Every entry is a block coordinate: [0 <= value < n]. *)
Definition in_range (n : nat) (idx : index2) : bool :=
  forallb (forallb (fun z => (0 <=? z)%Z && (z <? Z.of_nat n)%Z)) idx.

(** *** Sums *)

(** [sum_n n f] is [((0 + f 0) + f 1) + ... + f (n-1)]: the terms added
    onto zero from left to right. *)
Fixpoint sum_n (n : nat) (f : nat -> R) : R :=
  match n with
  | 0 => rzero
  | S n' => radd (sum_n n' f) (f n')
  end.

(** *** numpy primitives *)

(** [l[i]] with a Python int from [range]. *)
Definition getitem {A : Type} (l : list A) (i : nat) : result A :=
  match l !! i with
  | Some x => inr x
  | None => inl IndexError
  end.

(** An integer index against an axis of length [n]: negative values count
    from the end, anything outside [-n, n) is an [IndexError]. *)
Definition wrap_index (n : nat) (z : Z) : result nat :=
  if ((0 <=? z) && (z <? Z.of_nat n))%Z then inr (Z.to_nat z)
  else if ((- Z.of_nat n <=? z) && (z <? 0))%Z then
    inr (Z.to_nat (Z.of_nat n + z))
  else inl IndexError.

(** [numpy.dot(v, w)] for a vector and a 2-D array: entry [k] is the sum
    over [m] of [v[m] * w[m, k]]; the lengths must agree. *)
Definition numpy_dot (v : vector R) (w : array2) : result (vector R) :=
  if length v =? nrows w then
    inr ((fun k =>
            sum_n (length v) (fun m => rmul (get1 v m) (get2 (rows w) m k)))
         <$> seq 0 (ncols w))
  else inl ValueError.

(** [numpy.outer(x, y)]. *)
Definition numpy_outer (x y : vector R) : array2 :=
  mkArray2 (length x) (length y) ((fun a => rmul a <$> y) <$> x).

(** [b.take(idx, axis=0)] for a 2-D [b] and a 2-D integer [idx]: the rows
    of [b] gathered at the values of [idx], one row per index entry. *)
Definition numpy_take0 (b : matrix R) (idx : index2)
    : result (tensor3 R) :=
  rmapM (fun row =>
           rmapM (fun z => do p <- wrap_index (length b) z; getitem b p) row)
        idx.

(** [W.dimshuffle((1, 0, 3, 2))] on the elements of a 4-D array of shape
    [(n0, n1, n2, n3)]: entry [(q, p, k, m)] of the result is entry
    [(p, q, m, k)] of [W]. *)
Definition dimshuffle_1032 (n0 n1 n2 n3 : nat) (W : tensor4 R) : tensor4 R :=
  (fun q =>
     (fun p =>
        (fun k => (fun m => get4 W p q m k) <$> seq 0 n2) <$> seq 0 n3)
     <$> seq 0 n0)
  <$> seq 0 n1.

(** [zeros_like] on the elements of 3-D and 4-D arrays. *)
Definition zeros3 (n0 n1 n2 : nat) : tensor3 R :=
  replicate n0 (replicate n1 (replicate n2 rzero)).
Definition zeros4 (n0 n1 n2 n3 : nat) : tensor4 R :=
  replicate n0 (zeros3 n1 n2 n3).

(** Broadcasting an operand axis of length [src] onto a target axis of
    length [dst] in an in-place operation. *)
Definition broadcast_ok (src dst : nat) : bool :=
  (src =? dst) || (src =? 1).
Definition bidx (src k : nat) : nat := if src =? 1 then 0 else k.

(** [dst += src] on a 1-D view. *)
Definition iadd_vec (dst src : vector R) : result (vector R) :=
  if broadcast_ok (length src) (length dst) then
    inr (imap (fun k x => radd x (get1 src (bidx (length src) k))) dst)
  else inl ValueError.

(** [dst += src] on a 2-D view. *)
Definition iadd_mat (dst src : array2) : result (matrix R) :=
  if broadcast_ok (nrows src) (nrows dst)
     && broadcast_ok (ncols src) (ncols dst) then
    inr (imap (fun m row =>
                 imap (fun k x =>
                         radd x (get2 (rows src) (bidx (nrows src) m)
                                                 (bidx (ncols src) k)))
                      row)
              (rows dst))
  else inl ValueError.

(** *** Computations over the store

    A computation returns the store it leaves behind also when it raises:
    an exception does not undo earlier writes. *)

Definition M (A : Type) : Type :=
  list ndarray -> list ndarray * result A.

Definition ret {A : Type} (a : A) : M A := fun s => (s, inr a).
Definition raise {A : Type} (e : exn) : M A := fun s => (s, inl e).
Definition lift {A : Type} (r : result A) : M A := fun s => (s, r).
Definition bind {A B : Type} (m : M A) (f : A -> M B) : M B :=
  fun s => match m s with
           | (s', inl e) => (s', inl e)
           | (s', inr a) => f a s'
           end.

End Arrays.

Arguments ndarray_data R : clear implicits.
Arguments ndarray R : clear implicits.
Arguments array2 R : clear implicits.
Arguments M R A : clear implicits.

(** The object store: a location is an object identity, a fresh object is
    appended. *)
Abbreviation store R := (list (ndarray R)) (only parsing).

Notation "'run' x <- m ; k" := (bind m (fun x => k))
  (at level 10, x name, m at level 100, k at level 200).

Section StoreOps.

Context {R : Type} `{Scalar R}.

(** Dereference an object.  Every Python name refers to a live object; a
    location outside the store is reported as a [TypeError]. *)
Definition load (l : loc) : M R (ndarray R) :=
  fun s => match s !! l with
           | Some a => (s, inr a)
           | None => (s, inl (TypeError "no such object"))
           end.

Definition write (l : loc) (a : ndarray R) : M R unit :=
  fun s => (<[l := a]> s, inr tt).

(** [a.copy()]: a fresh object with the same shape and elements. *)
Definition copy (l : loc) : M R loc :=
  run a <- load l;
  fun s => (s ++ [a], inr (length s)).

(** [a.shape[k]]. *)
Definition shape_of (l : loc) (k : nat) : M R nat :=
  run a <- load l; lift (getitem (shape a) k).

(** The loops index arrays of fixed ranks.  An array of another rank or
    element kind at that place is reported as [IndexError]; the model
    covers the ranks [make_node] documents. *)
Definition load3 (l : loc) : M R (list nat * tensor3 R) :=
  run a <- load l;
  match data a with
  | Float3 t => ret (shape a, t)
  | _ => raise IndexError
  end.

Definition load4 (l : loc) : M R (list nat * tensor4 R) :=
  run a <- load l;
  match data a with
  | Float4 t => ret (shape a, t)
  | _ => raise IndexError
  end.

(** [idx[b, i]] on a 2-D integer array, with loop counters. *)
Definition getitem_int2 (l : loc) (b i : nat) : M R Z :=
  run a <- load l;
  match data a with
  | Int2 t => lift (do row <- getitem t b; getitem row i)
  | _ => raise IndexError
  end.

(** [a[b, i]] (equally [a[b, i, :]]) on a rank-3 array: a 1-D view. *)
Definition getitem_row (l : loc) (b i : nat) : M R (vector R) :=
  run st <- load3 l;
  lift (do m <- getitem (snd st) b; getitem m i).

(** [a[p, q]] on a rank-4 array with integers read from an index array:
    the normalised coordinates and the 2-D view. *)
Definition getitem_block (l : loc) (p q : Z)
    : M R (nat * nat * array2 R) :=
  run st <- load4 l;
  let '(sh, t) := st in
  lift (do n0 <- getitem sh 0;
        do n1 <- getitem sh 1;
        do n2 <- getitem sh 2;
        do n3 <- getitem sh 3;
        do p' <- wrap_index n0 p;
        do q' <- wrap_index n1 q;
        do t3 <- getitem t p';
        do blk <- getitem t3 q';
        inr (p', q', mkArray2 n2 n3 blk)).

(** [o[b, j, :] += d] on a rank-3 array. *)
Definition iadd_row (l : loc) (b j : nat) (d : vector R) : M R unit :=
  run a <- load l;
  match data a with
  | Float3 t =>
      run m <- lift (getitem t b);
      run row <- lift (getitem m j);
      run row' <- lift (iadd_vec row d);
      write l (mkArray (shape a) (Float3 (<[b := <[j := row']> m]> t)))
  | _ => raise IndexError
  end.

(** [o[p, q] += src] on a rank-4 array, [p] and [q] already normalised. *)
Definition iadd_block (l : loc) (p q : nat) (src : array2 R) : M R unit :=
  run a <- load l;
  match data a with
  | Float4 t =>
      run n2 <- lift (getitem (shape a) 2);
      run n3 <- lift (getitem (shape a) 3);
      run t3 <- lift (getitem t p);
      run blk <- lift (getitem t3 q);
      run blk' <- lift (iadd_mat (mkArray2 n2 n3 blk) src);
      write l (mkArray (shape a) (Float4 (<[p := <[q := blk']> t3]> t)))
  | _ => raise IndexError
  end.

(** [for i in l: body(i)]. *)
Fixpoint for_each (l : list nat) (body : nat -> M R unit) : M R unit :=
  match l with
  | [] => ret tt
  | i :: l' => run _ <- body i; for_each l' body
  end.

(** [for i in range(n): body(i)]. *)
Definition for_range (n : nat) (body : nat -> M R unit) : M R unit :=
  for_each (seq 0 n) body.

End StoreOps.

(** ** Symbolic tensor variables *)

(** [TensorType(dtype, broadcastable)]; the rank is the length of the
    broadcastable pattern. *)
Record TensorType : Type := mkTensorType {
  dtype : string;
  broadcastable : list bool
}.

(** An entry of a dimshuffle pattern: the string 'x' or an axis number. *)
Inductive DimSpec : Type :=
| Dx
| Dn (axis : nat).

Inductive OpClass : Type :=
| ClsSparseBlockGemv
| ClsSparseBlockOuter
| ClsCpuSparseBlockGemv
| ClsCpuSparseBlockOuter.

(** An operator instance: its class and the [inplace] attribute set by
    [__init__]. *)
Record Op : Type := mkOp {
  op_class : OpClass;
  inplace : bool
}.

(** [__init__]: [destroy_map = {0: [0]}] exactly when [inplace]. *)
Definition destroy_map (self : Op) : list (nat * list nat) :=
  if inplace self then [(0, [0])] else [].

(** Modelled from the spec: the symbolic variables and apply nodes of the
    enclosing graph framework (theano.gof, theano.tensor) are not under
    src/; the spec takes the framework as a collaborator that supplies
    rank and dtype metadata and a way to declare a node with typed inputs
    and outputs.  Variables are terms here.  [Output node] is
    [node.outputs[0]], the variable an operator call returns; [ZerosLike v]
    is [v.zeros_like()], [DimShuffle pattern v] is [v.dimshuffle(pattern)],
    [Take a indices axis] is [a.take(indices, axis)] and [Constant] is
    [tensor.constant(array)]. *)
Inductive TensorVariable : Type :=
| Input (name : string) (ty : TensorType)
| Constant (ty : TensorType) (data : Q)
| ZerosLike (v : TensorVariable)
| DimShuffle (new_order : list DimSpec) (v : TensorVariable)
| Take (a indices : TensorVariable) (axis : Z)
| Output (node : Apply)
with Apply : Type :=
| mkApply (node_op : Op) (node_inputs : list TensorVariable)
          (node_output : TensorType).

Definition node_op (n : Apply) : Op :=
  match n with mkApply op _ _ => op end.
Definition node_inputs (n : Apply) : list TensorVariable :=
  match n with mkApply _ ins _ => ins end.
Definition node_output (n : Apply) : TensorType :=
  match n with mkApply _ _ ty => ty end.

(** Modelled from the spec: the typing rules of [zeros_like], [dimshuffle]
    and [take] live in theano.tensor, not under src/.  Zeros keep the type
    of their argument; a dimshuffle permutes the axes by its pattern and
    marks every inserted 'x' axis broadcastable; gathering along axis 0
    yields one row of [a] per index entry, so the axes of the indices
    replace the leading axis of [a]. *)
Fixpoint var_type (v : TensorVariable) : TensorType :=
  match v with
  | Input _ ty => ty
  | Constant ty _ => ty
  | ZerosLike v' => var_type v'
  | DimShuffle new_order v' =>
      let ty := var_type v' in
      mkTensorType (dtype ty)
        (map (fun d => match d with
                       | Dx => true
                       | Dn i => nth i (broadcastable ty) false
                       end) new_order)
  | Take a indices _ =>
      mkTensorType (dtype (var_type a))
        (repeat false (length (broadcastable (var_type indices))
                       + length (broadcastable (var_type a)) - 1))
  | Output node => node_output node
  end.

Definition ndim (v : TensorVariable) : nat :=
  length (broadcastable (var_type v)).

Definition var_dtype (v : TensorVariable) : string := dtype (var_type v).

(** Modelled from the spec: [theano.tensor.as_tensor_variable] is not under
    src/.  The framework hands the operators tensor variables, which the
    conversion returns unchanged. *)
Definition as_tensor_variable (v : TensorVariable) : TensorVariable := v.

(** Modelled from the spec: [tensor.constant] is not under src/.
    [tensor.constant(numpy.asarray(value, dtype))] is a rank-0 constant of
    that dtype and value. *)
Definition constant_scalar (value : Q) (dt : string) : TensorVariable :=
  Constant (mkTensorType dt []) value.

(** [d in dtypes] on a tuple of dtype names. *)
Definition dtype_in (d : string) (dtypes : list string) : bool :=
  existsb (String.eqb d) dtypes.

(** Modelled from the spec: [theano.gradient.grad_undefined] is not under
    src/.  What [grad] returns for one input is a gradient variable or, for
    a non-differentiable selector, the undefined-gradient marker made by
    [grad_undefined(op, x_pos, x, comment)]. *)
Inductive GradVariable : Type :=
| GradTensor (v : TensorVariable)
| GradUndefined (op : Op) (x_pos : nat) (x : TensorVariable) (comment : string).

Module SparseBlockOuter.

Definition make_node (self : Op) (o x y xIdx yIdx : TensorVariable)
    (alpha : option TensorVariable) : result Apply :=
  let one := constant_scalar 1%Q "float32" in
  let o := as_tensor_variable o in
  let x := as_tensor_variable x in
  let y := as_tensor_variable y in
  let alpha := match alpha with None => one | Some a => a end in
  let output := mkTensorType (var_dtype o) (repeat false (ndim o)) in
  inr (mkApply self [o; x; y; xIdx; yIdx; alpha] output).

(** Modelled from the spec: [Op.__call__] is not under src/.  Calling an
    operator, [self(o, x, y, xIdx, yIdx)], builds its node with [make_node]
    and returns the node's output. *)
Definition call (self : Op) (o x y xIdx yIdx : TensorVariable)
    (alpha : option TensorVariable) : result TensorVariable :=
  do node <- make_node self o x y xIdx yIdx alpha; inr (Output node).

Definition perform_msg : string := "Optimization of SparseBlockOuter failed.".

Definition perform {R : Type} (self : Op) (inp : list loc) : M R loc :=
  raise (NotImplementedError perform_msg).

Definition grad_msg : string := "SparseBlockOuter has no gradient implemented".

Definition grad (self : Op) (inputs output_gradients : list TensorVariable)
    : result (list GradVariable) :=
  inl (NotImplementedError grad_msg).

End SparseBlockOuter.

Module SparseBlockGemv.
Section WithDtypes.

(** [theano.tensor.discrete_dtypes], the names of the integral dtypes: the
    table is not under src/ and is a parameter here. *)
Context (discrete_dtypes : list string).

Definition make_node (self : Op) (o W h inputIdx outputIdx : TensorVariable)
    : result Apply :=
  let o := as_tensor_variable o in
  let W := as_tensor_variable W in
  let h := as_tensor_variable h in
  let inputIdx := as_tensor_variable inputIdx in
  let outputIdx := as_tensor_variable outputIdx in
  if negb (ndim o =? 3) then
    inl (TypeError "The output o must be a 2D tensor")
  else if negb (ndim W =? 4) then
    inl (TypeError "The weight matrix W must be a 4D tensor")
  else if negb (ndim h =? 3) then
    inl (TypeError "The input h must be a 3D tensor")
  else if negb (ndim inputIdx =? 2) then
    inl (TypeError "The input indices inputIdx must be a 2D tensor")
  else if negb (ndim outputIdx =? 2) then
    inl (TypeError "The output indices outputIdx must be a 2D tensor")
  else if negb (dtype_in (var_dtype inputIdx) discrete_dtypes) then
    inl AssertionError
  else if negb (dtype_in (var_dtype outputIdx) discrete_dtypes) then
    inl AssertionError
  else
    let output := mkTensorType (var_dtype o) (repeat false (ndim o)) in
    inr (mkApply self [o; W; h; inputIdx; outputIdx] output).

(** Modelled from the spec: [Op.__call__] is not under src/.  Calling an
    operator builds its node with [make_node] and returns the node's
    output. *)
Definition call (self : Op) (o W h inputIdx outputIdx : TensorVariable)
    : result TensorVariable :=
  do node <- make_node self o W h inputIdx outputIdx; inr (Output node).

Definition perform_msg : string := "Optimization of SparseBlockGemv failed.".

Definition perform {R : Type} (self : Op) (inp : list loc) : M R loc :=
  raise (NotImplementedError perform_msg).

Definition grad (self : Op) (inputs grads : list TensorVariable)
    : result (list GradVariable) :=
  match inputs with
  | [o; W; h; inputIdx; outputIdx] =>
      match grads with
      | go :: _ =>
          let outer_fun := mkOp ClsSparseBlockOuter (inplace self) in
          let gemv_fun := mkOp ClsSparseBlockGemv (inplace self) in
          do Wgrad <- SparseBlockOuter.call outer_fun (ZerosLike W) h go
                        inputIdx outputIdx None;
          do hgrad <- call gemv_fun (ZerosLike h)
                        (DimShuffle [Dn 1; Dn 0; Dn 3; Dn 2] W)
                        go outputIdx inputIdx;
          inr [GradTensor go; GradTensor Wgrad; GradTensor hgrad;
               GradUndefined self 3 inputIdx "grad of inputIdx makes no sense";
               GradUndefined self 4 outputIdx "grad of outputIdx makes no sense"]
      | [] => inl IndexError
      end
  | _ => inl ValueError
  end.

End WithDtypes.
End SparseBlockGemv.

Section EntryPoint.

(** [theano.tensor.discrete_dtypes], a parameter as above. *)
Context (discrete_dtypes : list string).

Definition sparse_block_dot (W h inputIdx b outputIdx : TensorVariable)
    (inplace : bool) : result TensorVariable :=
  if negb (Z.of_nat (ndim inputIdx) =? Z.of_nat (ndim h) - 1)%Z then
    inl AssertionError
  else if negb (ndim outputIdx =? ndim inputIdx) then
    inl AssertionError
  else
    let '(h, inputIdx, outputIdx) :=
      if ndim h =? 2 then
        (DimShuffle [Dx; Dn 0; Dn 1] h,
         DimShuffle [Dx; Dn 0] inputIdx,
         DimShuffle [Dx; Dn 0] outputIdx)
      else (h, inputIdx, outputIdx) in
    SparseBlockGemv.call discrete_dtypes (mkOp ClsSparseBlockGemv inplace)
      (Take b outputIdx 0) W h inputIdx outputIdx.

End EntryPoint.

(** ** Vocabulary for stating what the graph layer builds *)

(** The rank constraints of BlockGemv: [o] rank 3, [W] rank 4, [h] rank 3,
    both index tensors rank 2. *)
Definition gemv_ranks_ok (o W h inputIdx outputIdx : TensorVariable) : bool :=
  (ndim o =? 3) && (ndim W =? 4) && (ndim h =? 3)
  && (ndim inputIdx =? 2) && (ndim outputIdx =? 2).

(** Both index tensors carry an integral dtype. *)
Definition gemv_dtypes_ok (discrete_dtypes : list string)
    (inputIdx outputIdx : TensorVariable) : bool :=
  dtype_in (var_dtype inputIdx) discrete_dtypes
  && dtype_in (var_dtype outputIdx) discrete_dtypes.

(** A valid argument list of the entry point: [W] rank 4, the bias rank 2,
    [h] either batched (rank 3) or unbatched (rank 2), the index tensors one
    rank below [h] and integral. *)
Definition dot_types_ok (discrete_dtypes : list string)
    (W h inputIdx b outputIdx : TensorVariable) : bool :=
  (ndim W =? 4) && (ndim b =? 2)
  && ((ndim h =? 3) || (ndim h =? 2))
  && (ndim inputIdx + 1 =? ndim h) && (ndim outputIdx + 1 =? ndim h)
  && gemv_dtypes_ok discrete_dtypes inputIdx outputIdx.

(** An unbatched [h] and its index tensors with the batch axis of size 1
    inserted; batched ones unchanged. *)
Definition batched3 (h : TensorVariable) : TensorVariable :=
  if ndim h =? 2 then DimShuffle [Dx; Dn 0; Dn 1] h else h.
Definition batched2 (h idx : TensorVariable) : TensorVariable :=
  if ndim h =? 2 then DimShuffle [Dx; Dn 0] idx else idx.

(** ** The CPU kernels *)

Module CpuSparseBlockGemv.
Section Perform.

Context {R : Type} `{Scalar R}.

(** The body of [for i in range(h.shape[1])]. *)
Definition loop_i (o W h iIdx : loc) (b j : nat) (outputIdx : Z) (i : nat)
    : M R unit :=
  run inputIdx <- getitem_int2 iIdx b i;
  run w <- getitem_block W inputIdx outputIdx;
  run _ <- getitem_row o b j;
  run hv <- getitem_row h b i;
  run d <- lift (numpy_dot hv (snd w));
  iadd_row o b j d.

(** The body of [for j in range(o.shape[1])]. *)
Definition loop_j (o W h iIdx oIdx : loc) (b j : nat) : M R unit :=
  run outputIdx <- getitem_int2 oIdx b j;
  run hs <- shape_of h 1;
  for_range hs (loop_i o W h iIdx b j outputIdx).

(** The body of [for b in range(o.shape[0])]. *)
Definition loop_b (o W h iIdx oIdx : loc) (b : nat) : M R unit :=
  run s1 <- shape_of o 1;
  for_range s1 (loop_j o W h iIdx oIdx b).

Definition perform (self : Op) (inp : list loc) : M R loc :=
  match inp with
  | o :: W :: h :: iIdx :: oIdx :: _ =>
      run o <- (if negb (inplace self) then copy o else ret o);
      run s0 <- shape_of o 0;
      run _ <- for_range s0 (loop_b o W h iIdx oIdx);
      ret o
  | _ => raise ValueError
  end.

End Perform.
End CpuSparseBlockGemv.

Module CpuSparseBlockOuter.
Section Perform.

Context {R : Type} `{Scalar R}.

(** The body of [for j in range(yIdx.shape[1])]. *)
Definition loop_j (o x y xIdx yIdx : loc) (b i j : nat) : M R unit :=
  run xi <- getitem_int2 xIdx b i;
  run yj <- getitem_int2 yIdx b j;
  run view <- getitem_block o xi yj;
  run xv <- getitem_row x b i;
  run yv <- getitem_row y b j;
  iadd_block o (fst (fst view)) (snd (fst view)) (numpy_outer xv yv).

(** The body of [for i in range(xIdx.shape[1])]. *)
Definition loop_i (o x y xIdx yIdx : loc) (b i : nat) : M R unit :=
  run s2 <- shape_of yIdx 1;
  for_range s2 (loop_j o x y xIdx yIdx b i).

(** The body of [for b in range(x.shape[0])]. *)
Definition loop_b (o x y xIdx yIdx : loc) (b : nat) : M R unit :=
  run s1 <- shape_of xIdx 1;
  for_range s1 (loop_i o x y xIdx yIdx b).

(** [alpha] is unpacked and not used again. *)
Definition perform (self : Op) (inp : list loc) : M R loc :=
  match inp with
  | o :: x :: y :: xIdx :: yIdx :: alpha :: _ =>
      run o <- (if negb (inplace self) then copy o else ret o);
      run s0 <- shape_of x 0;
      run _ <- for_range s0 (loop_b o x y xIdx yIdx);
      ret o
  | _ => raise ValueError
  end.

End Perform.
End CpuSparseBlockOuter.

(** ** Vocabulary for stating what the kernels compute *)

(** The longest prefix of [l] whose members all pass [good]. *)
Fixpoint take_while {A : Type} (good : A -> bool) (l : list A) : list A :=
  match l with
  | [] => []
  | a :: l' => if good a then a :: take_while good l' else []
  end.

Section Vocabulary.

Context {R : Type} `{Scalar R}.

(** [accumulate f l a] is [((a + f t1) + f t2) + ...]: the terms of the
    members of [l] added to [a] one after the other, in the order of [l],
    as a loop of in-place additions does. *)
Definition accumulate {A : Type} (f : A -> R) (l : list A) (a : R) : R :=
  fold_left (fun acc t => radd acc (f t)) l a.

(** The block coordinate stored at [idx[b, i]]. *)
Definition block_of (idx : index2) (b i : nat) : nat :=
  Z.to_nat (geti idx b i).

(** Entry [k] of the product of the row vector [h[b, i, :]] (of length
    [iSize]) with the sub-matrix [W[p, q, :, :]]. *)
Definition dot_entry (iSize : nat) (h : tensor3 R) (W : tensor4 R)
    (b i p q k : nat) : R :=
  sum_n iSize (fun m => rmul (get3 h b i m) (get4 W p q m k)).

(** Entry [(m, k)] of the outer product of [x[b, i, :]] and [y[b, j, :]]. *)
Definition outer_entry (x y : tensor3 R) (b i j m k : nat) : R :=
  rmul (get3 x b i m) (get3 y b j k).

(** What the pass [(b, i, j)] of the outer-product loops adds to entry
    [(m, k)] of its destination block. *)
Definition outer_term (x y : tensor3 R) (m k : nat) (t : nat * nat * nat)
    : R :=
  let '(b, i, j) := t in outer_entry x y b i j m k.

(** All [(b, i, j)] in the order of the outer-product loops. *)
Definition triples (B xWin yWin : nat) : list (nat * nat * nat) :=
  b ← seq 0 B; i ← seq 0 xWin; j ← seq 0 yWin; [(b, i, j)].

(** All [(b, j, i)] in the order of the gemv loops. *)
Definition gemv_triples (B oWin iWin : nat) : list (nat * nat * nat) :=
  b ← seq 0 B; j ← seq 0 oWin; i ← seq 0 iWin; [(b, j, i)].

(** The pass [(b, i, j)] of the outer-product loops has block [(p, q)] as
    its destination. *)
Definition addresses (xIdx yIdx : index2) (p q : nat)
    (t : nat * nat * nat) : bool :=
  let '(b, i, j) := t in
  (block_of xIdx b i =? p) && (block_of yIdx b j =? q).

(** A valid BlockGemv input held in store [s]: arrays of the documented
    ranks, element kinds and matching extents, every index a block
    coordinate of [W]. *)
Record gemv_input (s : store R) (lo lW lh li lj : loc)
    (o : tensor3 R) (W : tensor4 R) (h : tensor3 R) (iIdx oIdx : index2)
    (B oWin oSize iWin iSize iBlocks oBlocks : nat) : Prop := {
  gi_o : s !! lo = Some (mkArray [B; oWin; oSize] (Float3 o));
  gi_W : s !! lW
         = Some (mkArray [iBlocks; oBlocks; iSize; oSize] (Float4 W));
  gi_h : s !! lh = Some (mkArray [B; iWin; iSize] (Float3 h));
  gi_iIdx : s !! li = Some (mkArray [B; iWin] (Int2 iIdx));
  gi_oIdx : s !! lj = Some (mkArray [B; oWin] (Int2 oIdx));
  gi_o_shape : shape3_ok B oWin oSize o = true;
  gi_W_shape : shape4_ok iBlocks oBlocks iSize oSize W = true;
  gi_h_shape : shape3_ok B iWin iSize h = true;
  gi_iIdx_shape : shape2_ok B iWin iIdx = true;
  gi_oIdx_shape : shape2_ok B oWin oIdx = true;
  gi_iIdx_range : in_range iBlocks iIdx = true;
  gi_oIdx_range : in_range oBlocks oIdx = true
}.

(** A valid BlockOuterAccumulate input held in store [s]. *)
Record outer_input (s : store R) (lo lx ly li lj la : loc)
    (o : tensor4 R) (x y : tensor3 R) (xIdx yIdx : index2) (alpha : R)
    (B xWin yWin xSize ySize xBlocks yBlocks : nat) : Prop := {
  oi_o : s !! lo
         = Some (mkArray [xBlocks; yBlocks; xSize; ySize] (Float4 o));
  oi_x : s !! lx = Some (mkArray [B; xWin; xSize] (Float3 x));
  oi_y : s !! ly = Some (mkArray [B; yWin; ySize] (Float3 y));
  oi_xIdx : s !! li = Some (mkArray [B; xWin] (Int2 xIdx));
  oi_yIdx : s !! lj = Some (mkArray [B; yWin] (Int2 yIdx));
  oi_alpha : s !! la = Some (mkArray [] (Float0 alpha));
  oi_o_shape : shape4_ok xBlocks yBlocks xSize ySize o = true;
  oi_x_shape : shape3_ok B xWin xSize x = true;
  oi_y_shape : shape3_ok B yWin ySize y = true;
  oi_xIdx_shape : shape2_ok B xWin xIdx = true;
  oi_yIdx_shape : shape2_ok B yWin yIdx = true;
  oi_xIdx_range : in_range xBlocks xIdx = true;
  oi_yIdx_range : in_range yBlocks yIdx = true
}.

End Vocabulary.

(** ** Vocabulary for index values outside [0, n) *)

(** An index value numpy accepts on an axis of length [n]: [-n <= z < n]. *)
Definition wrap_ok (n : nat) (z : Z) : bool :=
  (- Z.of_nat n <=? z)%Z && (z <? Z.of_nat n)%Z.

(** The position an accepted index value addresses: itself, or [n + z] when
    negative. *)
Definition wrap_nat (n : nat) (z : Z) : nat :=
  if (0 <=? z)%Z then Z.to_nat z else Z.to_nat (Z.of_nat n + z).

(** The block that [idx[b, i]] addresses on an axis of [n] blocks. *)
Definition wblock (n : nat) (idx : index2) (b i : nat) : nat :=
  wrap_nat n (geti idx b i).

(** The pass [(b, j, i)] of the gemv loops addresses [W] with two accepted
    index values. *)
Definition gemv_pair_ok (iBlocks oBlocks : nat) (iIdx oIdx : index2)
    (t : nat * nat * nat) : bool :=
  let '(b, j, i) := t in
  wrap_ok iBlocks (geti iIdx b i) && wrap_ok oBlocks (geti oIdx b j).

(** The pass [(b, i, j)] of the outer-product loops addresses [o] with two
    accepted index values. *)
Definition outer_pair_ok (xBlocks yBlocks : nat) (xIdx yIdx : index2)
    (t : nat * nat * nat) : bool :=
  let '(b, i, j) := t in
  wrap_ok xBlocks (geti xIdx b i) && wrap_ok yBlocks (geti yIdx b j).

(** Every pass of the gemv loops is accepted.  With an empty input window
    there is no pass. *)
Definition gemv_indices_ok (iBlocks oBlocks : nat) (iIdx oIdx : index2)
    (B oWin iWin : nat) : bool :=
  forallb (gemv_pair_ok iBlocks oBlocks iIdx oIdx) (gemv_triples B oWin iWin).

(** Every pass of the outer-product loops is accepted. *)
Definition outer_indices_ok (xBlocks yBlocks : nat) (xIdx yIdx : index2)
    (B xWin yWin : nat) : bool :=
  forallb (outer_pair_ok xBlocks yBlocks xIdx yIdx) (triples B xWin yWin).

(** The pass [(b', j', i)] of the gemv loops updates row [(b, j)] of [o]. *)
Definition in_row (b j : nat) (t : nat * nat * nat) : bool :=
  let '(b', j', _) := t in (b' =? b) && (j' =? j).

(** [addresses] with the blocks addressed through [wblock]. *)
Definition addresses_w (xBlocks yBlocks : nat) (xIdx yIdx : index2)
    (p q : nat) (t : nat * nat * nat) : bool :=
  let '(b, i, j) := t in
  (wblock xBlocks xIdx b i =? p) && (wblock yBlocks yIdx b j =? q).

Section WrapVocabulary.

Context {R : Type} `{Scalar R}.

(** What the pass [(b, j, i)] of the gemv loops adds to entry [k] of row
    [(b, j)]: entry [k] of the product of [h[b, i, :]] with the block of
    [W] that its two index values address. *)
Definition gemv_term_w (iSize iBlocks oBlocks : nat) (h : tensor3 R)
    (W : tensor4 R) (iIdx oIdx : index2) (k : nat) (t : nat * nat * nat)
    : R :=
  let '(b, j, i) := t in
  dot_entry iSize h W b i
    (wblock iBlocks iIdx b i) (wblock oBlocks oIdx b j) k.

(** A BlockGemv input held in store [s] with arrays of the documented ranks
    and matching extents; nothing is asked of the index values. *)
Record gemv_arrays (s : store R) (lo lW lh li lj : loc)
    (o : tensor3 R) (W : tensor4 R) (h : tensor3 R) (iIdx oIdx : index2)
    (B oWin oSize iWin iSize iBlocks oBlocks : nat) : Prop := {
  ga_o : s !! lo = Some (mkArray [B; oWin; oSize] (Float3 o));
  ga_W : s !! lW
         = Some (mkArray [iBlocks; oBlocks; iSize; oSize] (Float4 W));
  ga_h : s !! lh = Some (mkArray [B; iWin; iSize] (Float3 h));
  ga_iIdx : s !! li = Some (mkArray [B; iWin] (Int2 iIdx));
  ga_oIdx : s !! lj = Some (mkArray [B; oWin] (Int2 oIdx));
  ga_o_shape : shape3_ok B oWin oSize o = true;
  ga_W_shape : shape4_ok iBlocks oBlocks iSize oSize W = true;
  ga_h_shape : shape3_ok B iWin iSize h = true;
  ga_iIdx_shape : shape2_ok B iWin iIdx = true;
  ga_oIdx_shape : shape2_ok B oWin oIdx = true
}.

(** A BlockOuterAccumulate input held in store [s], likewise. *)
Record outer_arrays (s : store R) (lo lx ly li lj : loc)
    (o : tensor4 R) (x y : tensor3 R) (xIdx yIdx : index2)
    (B xWin yWin xSize ySize xBlocks yBlocks : nat) : Prop := {
  oa_o : s !! lo
         = Some (mkArray [xBlocks; yBlocks; xSize; ySize] (Float4 o));
  oa_x : s !! lx = Some (mkArray [B; xWin; xSize] (Float3 x));
  oa_y : s !! ly = Some (mkArray [B; yWin; ySize] (Float3 y));
  oa_xIdx : s !! li = Some (mkArray [B; xWin] (Int2 xIdx));
  oa_yIdx : s !! lj = Some (mkArray [B; yWin] (Int2 yIdx));
  oa_o_shape : shape4_ok xBlocks yBlocks xSize ySize o = true;
  oa_x_shape : shape3_ok B xWin xSize x = true;
  oa_y_shape : shape3_ok B yWin ySize y = true;
  oa_xIdx_shape : shape2_ok B xWin xIdx = true;
  oa_yIdx_shape : shape2_ok B yWin yIdx = true
}.

End WrapVocabulary.

(** ** Integer scalars, for running the kernels on examples *)

#[export] Instance Z_scalar : Scalar Z :=
  {| rzero := 0%Z; radd := Z.add; rmul := Z.mul |}.

(** ** Example inputs *)

Definition ex_dtypes : list string :=
  ["int8"; "int16"; "int32"; "int64"; "uint8"; "uint16"; "uint32"; "uint64"].

Definition ex_o : TensorVariable :=
  Input "o" (mkTensorType "float64" [false; false; false]).
Definition ex_W : TensorVariable :=
  Input "W" (mkTensorType "float64" [false; false; false; false]).
Definition ex_h : TensorVariable :=
  Input "h" (mkTensorType "float64" [false; false; false]).
Definition ex_iIdx : TensorVariable :=
  Input "inputIdx" (mkTensorType "int64" [false; false]).
Definition ex_oIdx : TensorVariable :=
  Input "outputIdx" (mkTensorType "int32" [false; false]).
Definition ex_go : TensorVariable :=
  Input "go" (mkTensorType "float64" [false; false; false]).
Definition ex_b : TensorVariable :=
  Input "b" (mkTensorType "float64" [false; false]).

(** Arguments of the wrong rank and, for the indices, of a floating dtype. *)
Definition bad_o : TensorVariable :=
  Input "o" (mkTensorType "float64" [false; false]).
Definition bad_x : TensorVariable :=
  Input "x" (mkTensorType "float64" [false]).
Definition bad_y : TensorVariable :=
  Input "y" (mkTensorType "float64" [false; false; false; false]).
Definition bad_xIdx : TensorVariable :=
  Input "xIdx" (mkTensorType "float32" [false]).
Definition bad_yIdx : TensorVariable :=
  Input "yIdx" (mkTensorType "float32" [false; false; false]).

(** An index tensor of the right rank and a floating dtype. *)
Definition float_oIdx : TensorVariable :=
  Input "outputIdx" (mkTensorType "float32" [false; false]).

(** A gemv input: batch 1, two output blocks of size 2, two input blocks of
    size 3, a 2 x 2 grid of weight blocks. *)
Definition ex_gemv_o : tensor3 Z := [[[10; 20]; [30; 40]]]%Z.
Definition ex_gemv_W : tensor4 Z :=
  [ [ [[1; 2]; [3; 4]; [5; 6]]; [[1; 0]; [0; 1]; [1; 1]] ];
    [ [[2; 0]; [0; 2]; [0; 0]]; [[7; 8]; [9; 1]; [2; 3]] ] ]%Z.
Definition ex_gemv_h : tensor3 Z := [[[1; 2; 3]; [4; 5; 6]]]%Z.
Definition ex_gemv_iIdx : index2 := [[1; 0]]%Z.
Definition ex_gemv_oIdx : index2 := [[0; 1]]%Z.
Definition ex_gemv_bias : matrix Z := [[10; 20]; [30; 40]]%Z.
Definition ex_gemv_store : store Z :=
  [ mkArray [1; 2; 2] (Float3 ex_gemv_o);
    mkArray [2; 2; 3; 2] (Float4 ex_gemv_W);
    mkArray [1; 2; 3] (Float3 ex_gemv_h);
    mkArray [1; 2] (Int2 ex_gemv_iIdx);
    mkArray [1; 2] (Int2 ex_gemv_oIdx) ].

(** The same call with [h] being the very object [o] (both of shape
    (1, 2, 2), square 2 x 2 weight blocks). *)
Definition alias_W : tensor4 Z :=
  [ [ [[1; 1]; [0; 1]]; [[1; 0]; [1; 1]] ];
    [ [[0; 1]; [1; 0]]; [[2; 0]; [0; 2]] ] ]%Z.
Definition alias_store : store Z :=
  [ mkArray [1; 2; 2] (Float3 [[[1; 2]; [3; 4]]]%Z);
    mkArray [2; 2; 2; 2] (Float4 alias_W);
    mkArray [1; 2] (Int2 [[0; 1]]%Z);
    mkArray [1; 2] (Int2 [[0; 1]]%Z) ].

(** An outer-product input in which the two batch entries hit the same
    block (0, 0), with [alpha = 2]. *)
Definition ex_outer_o : tensor4 Z := [[[[100]; [200]]]]%Z.
Definition ex_outer_x : tensor3 Z := [[[1; 2]]; [[3; 4]]]%Z.
Definition ex_outer_y : tensor3 Z := [[[5]]; [[6]]]%Z.
Definition ex_outer_xIdx : index2 := [[0]; [0]]%Z.
Definition ex_outer_yIdx : index2 := [[0]; [0]]%Z.
Definition ex_outer_store : store Z :=
  [ mkArray [1; 1; 2; 1] (Float4 ex_outer_o);
    mkArray [2; 1; 2] (Float3 ex_outer_x);
    mkArray [2; 1; 1] (Float3 ex_outer_y);
    mkArray [2; 1] (Int2 ex_outer_xIdx);
    mkArray [2; 1] (Int2 ex_outer_yIdx);
    mkArray [] (Float0 2%Z) ].

(** The smallest outer-product input: every extent 1, [o = 0], [x = y = 1],
    [alpha = 2]. *)
Definition unit_outer_store : store Z :=
  [ mkArray [1; 1; 1; 1] (Float4 [[[[0]]]]%Z);
    mkArray [1; 1; 1] (Float3 [[[1]]]%Z);
    mkArray [1; 1; 1] (Float3 [[[1]]]%Z);
    mkArray [1; 1] (Int2 [[0]]%Z);
    mkArray [1; 1] (Int2 [[0]]%Z);
    mkArray [] (Float0 2%Z) ].

(** The gemv input above with the first input index given as -1, the last
    of the two input blocks. *)
Definition wrap_gemv_iIdx : index2 := [[-1; 0]]%Z.
Definition wrap_gemv_store : store Z :=
  [ mkArray [1; 2; 2] (Float3 ex_gemv_o);
    mkArray [2; 2; 3; 2] (Float4 ex_gemv_W);
    mkArray [1; 2; 3] (Float3 ex_gemv_h);
    mkArray [1; 2] (Int2 wrap_gemv_iIdx);
    mkArray [1; 2] (Int2 ex_gemv_oIdx) ].

(** The gemv input above with the second output index 2, one past the two
    output blocks. *)
Definition bad_gemv_oIdx : index2 := [[0; 2]]%Z.
Definition bad_gemv_store : store Z :=
  [ mkArray [1; 2; 2] (Float3 ex_gemv_o);
    mkArray [2; 2; 3; 2] (Float4 ex_gemv_W);
    mkArray [1; 2; 3] (Float3 ex_gemv_h);
    mkArray [1; 2] (Int2 ex_gemv_iIdx);
    mkArray [1; 2] (Int2 bad_gemv_oIdx) ].

(** A gemv input with an empty input window and output indices that name
    no block of [W]. *)
Definition empty_gemv_store : store Z :=
  [ mkArray [1; 2; 2] (Float3 ex_gemv_o);
    mkArray [2; 2; 3; 2] (Float4 ex_gemv_W);
    mkArray [1; 0; 3] (Float3 [[]]);
    mkArray [1; 0] (Int2 [[]]);
    mkArray [1; 2] (Int2 [[7; -9]]%Z) ].

(** The outer-product input above with the second batch entry addressing
    x-block -1 (the only one) and y-block 1, past the only y-block. *)
Definition wrap_outer_xIdx : index2 := [[0]; [-1]]%Z.
Definition wrap_outer_store : store Z :=
  [ mkArray [1; 1; 2; 1] (Float4 ex_outer_o);
    mkArray [2; 1; 2] (Float3 ex_outer_x);
    mkArray [2; 1; 1] (Float3 ex_outer_y);
    mkArray [2; 1] (Int2 wrap_outer_xIdx);
    mkArray [2; 1] (Int2 ex_outer_yIdx) ].
Definition bad_outer_yIdx : index2 := [[0]; [1]]%Z.
Definition bad_outer_store : store Z :=
  [ mkArray [1; 1; 2; 1] (Float4 ex_outer_o);
    mkArray [2; 1; 2] (Float3 ex_outer_x);
    mkArray [2; 1; 1] (Float3 ex_outer_y);
    mkArray [2; 1] (Int2 ex_outer_xIdx);
    mkArray [2; 1] (Int2 bad_outer_yIdx) ].

(** An outer-product input with a 2 x 1 grid of blocks of which only block
    (0, 0) is addressed. *)
Definition sparse_outer_o : tensor4 Z := [[[[100]; [200]]]; [[[7]; [8]]]]%Z.
Definition sparse_outer_store : store Z :=
  [ mkArray [2; 1; 2; 1] (Float4 sparse_outer_o);
    mkArray [2; 1; 2] (Float3 ex_outer_x);
    mkArray [2; 1; 1] (Float3 ex_outer_y);
    mkArray [2; 1] (Int2 ex_outer_xIdx);
    mkArray [2; 1] (Int2 ex_outer_yIdx);
    mkArray [] (Float0 2%Z) ].

(** The stores on which the two gradient nodes of the gemv example run. *)
Definition ex_gemv_go : tensor3 Z := [[[1; -1]; [2; 3]]]%Z.
Definition grad_h_store : store Z :=
  [ mkArray [1; 2; 3] (Float3 (zeros3 1 2 3));
    mkArray [2; 2; 2; 3] (Float4 (dimshuffle_1032 2 2 3 2 ex_gemv_W));
    mkArray [1; 2; 2] (Float3 ex_gemv_go);
    mkArray [1; 2] (Int2 ex_gemv_oIdx);
    mkArray [1; 2] (Int2 ex_gemv_iIdx) ].
Definition grad_W_store : store Z :=
  [ mkArray [2; 2; 3; 2] (Float4 (zeros4 2 2 3 2));
    mkArray [1; 2; 3] (Float3 ex_gemv_h);
    mkArray [1; 2; 2] (Float3 ex_gemv_go);
    mkArray [1; 2] (Int2 ex_gemv_iIdx);
    mkArray [1; 2] (Int2 ex_gemv_oIdx);
    mkArray [] (Float0 1%Z) ].

(** * Properties *)

(** ** Nested lists of a given shape *)

Section ShapeFacts.

Context {A : Type}.

Lemma shape1_ok_length (n : nat) (v : list A) :
  shape1_ok n v = true <-> length v = n.
Proof. unfold shape1_ok. apply Nat.eqb_eq. Qed.

Lemma shape2_ok_spec (n0 n1 : nat) (m : list (list A)) :
  shape2_ok n0 n1 m = true <->
  length m = n0 /\ forall j row, m !! j = Some row -> length row = n1.
Proof.
  unfold shape2_ok.
  rewrite andb_true_iff, Nat.eqb_eq, forallb_forall.
  split; intros [Hl Hr]; split; auto.
  - intros j row Hj. apply shape1_ok_length, Hr.
    apply list_elem_of_In, list_elem_of_lookup. eauto.
  - intros row Hin. apply list_elem_of_In, list_elem_of_lookup in Hin.
    destruct Hin as [j Hj]. apply shape1_ok_length. eauto.
Qed.

Lemma shape3_ok_spec (n0 n1 n2 : nat) (a : list (list (list A))) :
  shape3_ok n0 n1 n2 a = true <->
  length a = n0 /\ forall b m, a !! b = Some m -> shape2_ok n1 n2 m = true.
Proof.
  unfold shape3_ok.
  rewrite andb_true_iff, Nat.eqb_eq, forallb_forall.
  split; intros [Hl Hr]; split; auto.
  - intros b m Hb. apply Hr.
    apply list_elem_of_In, list_elem_of_lookup. eauto.
  - intros m Hin. apply list_elem_of_In, list_elem_of_lookup in Hin.
    destruct Hin as [b Hb]. eauto.
Qed.

Lemma shape4_ok_spec (n0 n1 n2 n3 : nat) (a : list (list (list (list A)))) :
  shape4_ok n0 n1 n2 n3 a = true <->
  length a = n0 /\
  forall p t, a !! p = Some t -> shape3_ok n1 n2 n3 t = true.
Proof.
  unfold shape4_ok.
  rewrite andb_true_iff, Nat.eqb_eq, forallb_forall.
  split; intros [Hl Hr]; split; auto.
  - intros p t Hp. apply Hr.
    apply list_elem_of_In, list_elem_of_lookup. eauto.
  - intros t Hin. apply list_elem_of_In, list_elem_of_lookup in Hin.
    destruct Hin as [p Hp]. eauto.
Qed.

Lemma shape2_ok_lookup (n0 n1 : nat) (m : list (list A)) (j : nat) :
  shape2_ok n0 n1 m = true -> j < n0 ->
  exists row, m !! j = Some row /\ length row = n1.
Proof.
  intros Hm Hj. apply shape2_ok_spec in Hm as [Hl Hr].
  destruct (lookup_lt_is_Some_2 m j) as [row Hrow]; [lia|]. eauto.
Qed.

Lemma shape3_ok_lookup (n0 n1 n2 : nat) (a : list (list (list A))) (b : nat) :
  shape3_ok n0 n1 n2 a = true -> b < n0 ->
  exists m, a !! b = Some m /\ shape2_ok n1 n2 m = true.
Proof.
  intros Ha Hb. apply shape3_ok_spec in Ha as [Hl Hr].
  destruct (lookup_lt_is_Some_2 a b) as [m Hm]; [lia|]. eauto.
Qed.

Lemma shape4_ok_lookup (n0 n1 n2 n3 : nat)
    (a : list (list (list (list A)))) (p : nat) :
  shape4_ok n0 n1 n2 n3 a = true -> p < n0 ->
  exists t, a !! p = Some t /\ shape3_ok n1 n2 n3 t = true.
Proof.
  intros Ha Hp. apply shape4_ok_spec in Ha as [Hl Hr].
  destruct (lookup_lt_is_Some_2 a p) as [t Ht]; [lia|]. eauto.
Qed.

Lemma shape2_ok_insert (n0 n1 : nat) (m : list (list A)) (j : nat)
    (row : list A) :
  shape2_ok n0 n1 m = true -> length row = n1 ->
  shape2_ok n0 n1 (<[j := row]> m) = true.
Proof.
  intros Hm Hrow. apply shape2_ok_spec in Hm as [Hl Hr].
  apply shape2_ok_spec. split; [by rewrite length_insert|].
  intros j' row' Hj'. apply list_lookup_insert_Some in Hj'.
  destruct Hj' as [(_ & <- & _) | (_ & Hj')]; eauto.
Qed.

Lemma shape3_ok_insert (n0 n1 n2 : nat) (a : list (list (list A)))
    (b : nat) (m : list (list A)) :
  shape3_ok n0 n1 n2 a = true -> shape2_ok n1 n2 m = true ->
  shape3_ok n0 n1 n2 (<[b := m]> a) = true.
Proof.
  intros Ha Hm. apply shape3_ok_spec in Ha as [Hl Hr].
  apply shape3_ok_spec. split; [by rewrite length_insert|].
  intros b' m' Hb'. apply list_lookup_insert_Some in Hb'.
  destruct Hb' as [(_ & <- & _) | (_ & Hb')]; eauto.
Qed.

Lemma shape4_ok_insert (n0 n1 n2 n3 : nat)
    (a : list (list (list (list A)))) (p : nat) (t : list (list (list A))) :
  shape4_ok n0 n1 n2 n3 a = true -> shape3_ok n1 n2 n3 t = true ->
  shape4_ok n0 n1 n2 n3 (<[p := t]> a) = true.
Proof.
  intros Ha Ht. apply shape4_ok_spec in Ha as [Hl Hr].
  apply shape4_ok_spec. split; [by rewrite length_insert|].
  intros p' t' Hp'. apply list_lookup_insert_Some in Hp'.
  destruct Hp' as [(_ & <- & _) | (_ & Hp')]; eauto.
Qed.

End ShapeFacts.

Lemma in_range_lookup (n : nat) (idx : index2) (b i : nat) (row : list Z) (z : Z) :
  in_range n idx = true -> idx !! b = Some row -> row !! i = Some z ->
  (0 <= z < Z.of_nat n)%Z.
Proof.
  unfold in_range. rewrite forallb_forall. intros Hall Hb Hi.
  assert (Hrow : forallb (fun z => (0 <=? z)%Z && (z <? Z.of_nat n)%Z) row = true).
  { apply Hall, list_elem_of_In, list_elem_of_lookup. eauto. }
  rewrite forallb_forall in Hrow.
  assert (Hz : ((0 <=? z)%Z && (z <? Z.of_nat n)%Z) = true).
  { apply Hrow, list_elem_of_In, list_elem_of_lookup. eauto. }
  apply andb_true_iff in Hz as [H0 H1]. lia.
Qed.

Lemma wrap_index_in_range (n : nat) (z : Z) :
  (0 <= z < Z.of_nat n)%Z -> wrap_index n z = inr (Z.to_nat z).
Proof.
  intros Hz. unfold wrap_index.
  replace ((0 <=? z)%Z && (z <? Z.of_nat n)%Z) with true; [done|].
  symmetry. apply andb_true_iff. lia.
Qed.

(** ** numpy primitives *)

Section PrimitiveFacts.

Context {R : Type} `{Scalar R}.

Lemma get2_lookup (m : matrix R) (j k : nat) (row : vector R) :
  m !! j = Some row -> get2 m j k = get1 row k.
Proof. intros Hj. unfold get2. by rewrite (nth_lookup_Some _ _ _ _ Hj). Qed.

Lemma get3_lookup (a : tensor3 R) (b j k : nat) (m : matrix R) :
  a !! b = Some m -> get3 a b j k = get2 m j k.
Proof. intros Hb. unfold get3. by rewrite (nth_lookup_Some _ _ _ _ Hb). Qed.

Lemma get4_lookup (a : tensor4 R) (p q m k : nat) (t : tensor3 R) :
  a !! p = Some t -> get4 a p q m k = get3 t q m k.
Proof. intros Hp. unfold get4. by rewrite (nth_lookup_Some _ _ _ _ Hp). Qed.

Lemma geti_lookup (a : index2) (b j : nat) (row : list Z) (z : Z) :
  a !! b = Some row -> row !! j = Some z -> geti a b j = z.
Proof.
  intros Hb Hj. unfold geti.
  by rewrite (nth_lookup_Some _ _ _ _ Hb), (nth_lookup_Some _ _ _ _ Hj).
Qed.

Lemma get1_imap (f : nat -> R -> R) (v : vector R) (k : nat) :
  k < length v -> get1 (imap f v) k = f k (get1 v k).
Proof.
  intros Hk. unfold get1. rewrite !nth_lookup, list_lookup_imap.
  destruct (lookup_lt_is_Some_2 v k Hk) as [x Hx]. by rewrite Hx.
Qed.

Lemma bidx_same (n k : nat) : k < n -> bidx n k = k.
Proof. unfold bidx. destruct (n =? 1) eqn:E; [|done]. apply Nat.eqb_eq in E. lia. Qed.

Lemma broadcast_ok_refl (n : nat) : broadcast_ok n n = true.
Proof. unfold broadcast_ok. by rewrite Nat.eqb_refl. Qed.

Lemma iadd_vec_spec (dst src : vector R) :
  length src = length dst ->
  exists r, iadd_vec dst src = inr r /\ length r = length dst /\
    forall k, k < length dst -> get1 r k = radd (get1 dst k) (get1 src k).
Proof.
  intros Hlen. unfold iadd_vec. rewrite Hlen, broadcast_ok_refl.
  eexists. split; [reflexivity|]. split; [by rewrite length_imap|].
  intros k Hk. rewrite get1_imap by done. by rewrite bidx_same.
Qed.

Lemma numpy_dot_spec (v : vector R) (w : array2 R) :
  length v = nrows w ->
  exists d, numpy_dot v w = inr d /\ length d = ncols w /\
    forall k, k < ncols w ->
      get1 d k = sum_n (length v)
                   (fun m => rmul (get1 v m) (get2 (rows w) m k)).
Proof.
  intros Hlen. unfold numpy_dot. rewrite Hlen, Nat.eqb_refl.
  eexists. split; [reflexivity|].
  split; [by rewrite length_fmap, length_seq|].
  intros k Hk. unfold get1 at 1.
  rewrite nth_lookup, list_lookup_fmap, lookup_seq_lt by done.
  done.
Qed.

Lemma get2_outer (x y : vector R) (m k : nat) :
  m < length x -> k < length y ->
  get2 (rows (numpy_outer x y)) m k = rmul (get1 x m) (get1 y k).
Proof.
  intros Hm Hk. simpl.
  destruct (lookup_lt_is_Some_2 x m Hm) as [a Ha].
  destruct (lookup_lt_is_Some_2 y k Hk) as [c Hc].
  rewrite (get2_lookup _ m k (rmul a <$> y)).
  - unfold get1. rewrite !nth_lookup, list_lookup_fmap, Ha, Hc. done.
  - by rewrite list_lookup_fmap, Ha.
Qed.

Lemma iadd_mat_spec (dst src : array2 R) :
  nrows src = nrows dst -> ncols src = ncols dst ->
  shape2_ok (nrows dst) (ncols dst) (rows dst) = true ->
  exists r, iadd_mat dst src = inr r /\
    shape2_ok (nrows dst) (ncols dst) r = true /\
    forall m k, m < nrows dst -> k < ncols dst ->
      get2 r m k = radd (get2 (rows dst) m k) (get2 (rows src) m k).
Proof.
  intros Hr Hc Hshape. unfold iadd_mat.
  rewrite Hr, Hc, !broadcast_ok_refl. simpl.
  apply shape2_ok_spec in Hshape as [Hlen Hrows].
  eexists. split; [reflexivity|]. split.
  - apply shape2_ok_spec. split; [by rewrite length_imap|].
    intros j row. rewrite list_lookup_imap.
    destruct (rows dst !! j) as [row0|] eqn:Hj; [|done].
    simpl. intros [= <-]. rewrite length_imap. eauto.
  - intros m k Hm Hk.
    destruct (lookup_lt_is_Some_2 (rows dst) m) as [row Hrow]; [lia|].
    rewrite (get2_lookup _ m k (imap (fun k x =>
        radd x (get2 (rows src) (bidx (nrows dst) m) (bidx (ncols dst) k))) row)).
    + rewrite get1_imap by (erewrite Hrows; eauto).
      rewrite !bidx_same by done. by rewrite (get2_lookup _ _ _ _ Hrow).
    + by rewrite list_lookup_imap, Hrow.
Qed.

(** *** Running store operations *)

Lemma load_run (s : store R) (l : loc) (a : ndarray R) :
  s !! l = Some a -> load l s = (s, inr a).
Proof. intros Hl. unfold load. by rewrite Hl. Qed.

Lemma shape_of_run (s : store R) (l : loc) (a : ndarray R) (k n : nat) :
  s !! l = Some a -> shape a !! k = Some n -> shape_of l k s = (s, inr n).
Proof.
  intros Hl Hk. unfold shape_of, bind. rewrite (load_run _ _ _ Hl).
  unfold lift, getitem. by rewrite Hk.
Qed.

Lemma getitem_int2_run (s : store R) (l : loc) (sh : list nat) (t : index2)
    (b i : nat) (row : list Z) (z : Z) :
  s !! l = Some (mkArray sh (Int2 t)) -> t !! b = Some row -> row !! i = Some z ->
  getitem_int2 l b i s = (s, inr z).
Proof.
  intros Hl Hb Hi. unfold getitem_int2, bind. rewrite (load_run _ _ _ Hl).
  simpl. unfold lift, getitem. rewrite Hb. simpl. by rewrite Hi.
Qed.

Lemma getitem_row_run (s : store R) (l : loc) (sh : list nat) (t : tensor3 R)
    (b i : nat) (m : matrix R) (row : vector R) :
  s !! l = Some (mkArray sh (Float3 t)) -> t !! b = Some m -> m !! i = Some row ->
  getitem_row l b i s = (s, inr row).
Proof.
  intros Hl Hb Hi. unfold getitem_row, load3, bind. rewrite (load_run _ _ _ Hl).
  simpl. unfold lift, getitem. rewrite Hb. simpl. by rewrite Hi.
Qed.

Lemma iadd_row_run (s : store R) (l : loc) (sh : list nat) (t : tensor3 R)
    (b j : nat) (m : matrix R) (row d row' : vector R) :
  s !! l = Some (mkArray sh (Float3 t)) -> t !! b = Some m -> m !! j = Some row ->
  iadd_vec row d = inr row' ->
  iadd_row l b j d s
  = (<[l := mkArray sh (Float3 (<[b := <[j := row']> m]> t))]> s, inr tt).
Proof.
  intros Hl Hb Hj Hadd. unfold iadd_row, bind. rewrite (load_run _ _ _ Hl).
  simpl. unfold lift, getitem. rewrite Hb, Hj, Hadd. done.
Qed.

Lemma iadd_block_run (s : store R) (l : loc) (n0 n1 n2 n3 : nat)
    (t : tensor4 R) (p q : nat) (t3 : tensor3 R) (blk blk' : matrix R)
    (src : array2 R) :
  s !! l = Some (mkArray [n0; n1; n2; n3] (Float4 t)) ->
  t !! p = Some t3 -> t3 !! q = Some blk ->
  iadd_mat (mkArray2 n2 n3 blk) src = inr blk' ->
  iadd_block l p q src s
  = (<[l := mkArray [n0; n1; n2; n3] (Float4 (<[p := <[q := blk']> t3]> t))]> s,
     inr tt).
Proof.
  intros Hl Hp Hq Hadd. unfold iadd_block, bind. rewrite (load_run _ _ _ Hl).
  simpl. unfold lift, getitem. simpl. rewrite Hp, Hq, Hadd. done.
Qed.

(** *** Sequencing *)

Lemma bind_run {A B : Type} (m : M R A) (f : A -> M R B) (s s' : store R) (a : A) :
  m s = (s', inr a) -> bind m f s = f a s'.
Proof. intros Hm. unfold bind. by rewrite Hm. Qed.

Lemma bind_raise {A C : Type} (m : M R A) (f : A -> M R C)
    (s s' : store R) (e : exn) :
  m s = (s', inl e) -> bind m f s = (s', inl e).
Proof. intros Hm. unfold bind. by rewrite Hm. Qed.

End PrimitiveFacts.

(** ** Array entries after an update *)

Section EntryFacts.

Context {R : Type} {HS : Scalar R}.

Lemma sum_n_ext (n : nat) (f g : nat -> R) :
  (forall i, i < n -> f i = g i) -> sum_n n f = sum_n n g.
Proof.
  induction n as [|n IH]; intros Hfg; [done|].
  simpl. rewrite IH by (intros; apply Hfg; lia). by rewrite Hfg by lia.
Qed.

Lemma get2_insert_eq (m : matrix R) (j k : nat) (row : vector R) :
  j < length m -> get2 (<[j := row]> m) j k = get1 row k.
Proof. intros Hj. apply get2_lookup. by apply list_lookup_insert_eq. Qed.

Lemma get2_insert_ne (m : matrix R) (j j' k : nat) (row : vector R) :
  j <> j' -> get2 (<[j := row]> m) j' k = get2 m j' k.
Proof.
  intros Hne. unfold get2. by rewrite !nth_lookup, list_lookup_insert_ne.
Qed.

Lemma get3_insert_eq (a : tensor3 R) (b j k : nat) (m : matrix R) :
  b < length a -> get3 (<[b := m]> a) b j k = get2 m j k.
Proof. intros Hb. apply get3_lookup. by apply list_lookup_insert_eq. Qed.

Lemma get3_insert_ne (a : tensor3 R) (b b' j k : nat) (m : matrix R) :
  b <> b' -> get3 (<[b := m]> a) b' j k = get3 a b' j k.
Proof.
  intros Hne. unfold get3. by rewrite !nth_lookup, list_lookup_insert_ne.
Qed.

Lemma get4_insert_eq (a : tensor4 R) (p q m k : nat) (t : tensor3 R) :
  p < length a -> get4 (<[p := t]> a) p q m k = get3 t q m k.
Proof. intros Hp. apply get4_lookup. by apply list_lookup_insert_eq. Qed.

Lemma get4_insert_ne (a : tensor4 R) (p p' q m k : nat) (t : tensor3 R) :
  p <> p' -> get4 (<[p := t]> a) p' q m k = get4 a p' q m k.
Proof.
  intros Hne. unfold get4. by rewrite !nth_lookup, list_lookup_insert_ne.
Qed.

End EntryFacts.

(** ** Index values *)

Lemma idx_lookup_shape (B win : nat) (idx : index2) (b i : nat) :
  shape2_ok B win idx = true -> b < B -> i < win ->
  exists row, idx !! b = Some row /\ row !! i = Some (geti idx b i).
Proof.
  intros Hok Hb Hi.
  destruct (shape2_ok_lookup _ _ _ b Hok Hb) as (row & Hrow & Hlen).
  destruct (lookup_lt_is_Some_2 row i) as [z Hz]; [lia|].
  exists row. by rewrite (geti_lookup _ _ _ _ _ Hrow Hz).
Qed.

Lemma idx_lookup (B n win : nat) (idx : index2) (b i : nat) :
  shape2_ok B win idx = true -> in_range n idx = true -> b < B -> i < win ->
  exists row, idx !! b = Some row /\ row !! i = Some (geti idx b i) /\
    (0 <= geti idx b i < Z.of_nat n)%Z.
Proof.
  intros Hok Hr Hb Hi.
  destruct (idx_lookup_shape B win idx b i Hok Hb Hi) as (row & Hrow & Hz).
  exists row. split; [done|]. split; [done|]. eapply in_range_lookup; eauto.
Qed.

Lemma wrap_index_spec (n : nat) (z : Z) :
  wrap_index n z = if wrap_ok n z then inr (wrap_nat n z) else inl IndexError.
Proof.
  unfold wrap_index, wrap_ok, wrap_nat.
  destruct (0 <=? z)%Z eqn:H0; simpl.
  - apply Z.leb_le in H0.
    replace (- Z.of_nat n <=? z)%Z with true by (symmetry; apply Z.leb_le; lia).
    simpl. destruct (z <? Z.of_nat n)%Z eqn:H1; [done|].
    replace (z <? 0)%Z with false by (symmetry; apply Z.ltb_ge; lia).
    done.
  - apply Z.leb_gt in H0.
    replace (z <? 0)%Z with true by (symmetry; apply Z.ltb_lt; lia).
    replace (z <? Z.of_nat n)%Z with true by (symmetry; apply Z.ltb_lt; lia).
    rewrite !andb_true_r. by destruct (- Z.of_nat n <=? z)%Z.
Qed.

Lemma wrap_nat_lt (n : nat) (z : Z) : wrap_ok n z = true -> wrap_nat n z < n.
Proof.
  unfold wrap_ok, wrap_nat. intros Hok.
  apply andb_true_iff in Hok as [H1 H2].
  apply Z.leb_le in H1. apply Z.ltb_lt in H2.
  destruct (0 <=? z)%Z eqn:H0; [apply Z.leb_le in H0|apply Z.leb_gt in H0]; lia.
Qed.

Lemma wrap_nat_in_range (n : nat) (z : Z) :
  (0 <= z < Z.of_nat n)%Z -> wrap_ok n z = true /\ wrap_nat n z = Z.to_nat z.
Proof.
  intros Hz. unfold wrap_ok, wrap_nat. split.
  - apply andb_true_iff. split; [apply Z.leb_le|apply Z.ltb_lt]; lia.
  - by replace (0 <=? z)%Z with true by (symmetry; apply Z.leb_le; lia).
Qed.

(** A block coordinate is accepted and addresses itself. *)
Lemma in_range_wrap (B n win : nat) (idx : index2) (b i : nat) :
  shape2_ok B win idx = true -> in_range n idx = true -> b < B -> i < win ->
  wrap_ok n (geti idx b i) = true /\
  wblock n idx b i = block_of idx b i /\
  block_of idx b i < n.
Proof.
  intros Hok Hr Hb Hi.
  destruct (idx_lookup B n win idx b i Hok Hr Hb Hi) as (_ & _ & _ & Hz).
  destruct (wrap_nat_in_range n _ Hz) as [Hw Hn].
  split; [done|]. split; [done|]. unfold block_of. lia.
Qed.

Section BlockAccess.

Context {R : Type} {HS : Scalar R}.

Lemma getitem_block_wrap (s : store R) (l : nat) (n0 n1 n2 n3 : nat)
    (t : tensor4 R) (p q : Z) (t3 : tensor3 R) (blk : matrix R) :
  s !! l = Some (mkArray [n0; n1; n2; n3] (Float4 t)) ->
  wrap_ok n0 p = true -> wrap_ok n1 q = true ->
  t !! wrap_nat n0 p = Some t3 -> t3 !! wrap_nat n1 q = Some blk ->
  getitem_block l p q s
  = (s, inr (wrap_nat n0 p, wrap_nat n1 q, mkArray2 n2 n3 blk)).
Proof.
  intros Hl Hp Hq Ht Hb. unfold getitem_block, load4, bind.
  rewrite (load_run _ _ _ Hl). simpl. unfold lift. simpl.
  rewrite !wrap_index_spec, Hp, Hq.
  simpl. unfold getitem. rewrite Ht. simpl. by rewrite Hb.
Qed.

Lemma getitem_block_reject (s : store R) (l : nat) (n0 n1 n2 n3 : nat)
    (t : tensor4 R) (p q : Z) :
  s !! l = Some (mkArray [n0; n1; n2; n3] (Float4 t)) ->
  wrap_ok n0 p && wrap_ok n1 q = false ->
  getitem_block l p q s = (s, inl IndexError).
Proof.
  intros Hl Hpq. unfold getitem_block, load4, bind.
  rewrite (load_run _ _ _ Hl). simpl. unfold lift. simpl.
  rewrite !wrap_index_spec.
  destruct (wrap_ok n0 p); [|done]. simpl in Hpq. by rewrite Hpq.
Qed.

End BlockAccess.

(** ** Lists of loop passes *)

Section PassLists.

Context {A : Type}.

Lemma take_while_all (good : A -> bool) (l : list A) :
  forallb good l = true -> take_while good l = l.
Proof.
  induction l as [|a l IH]; [done|]. simpl.
  destruct (good a); [|done]. simpl. intros Hl. by rewrite IH.
Qed.

Lemma take_while_app (good : A -> bool) (l1 l2 : list A) :
  take_while good (l1 ++ l2)
  = if forallb good l1 then l1 ++ take_while good l2
    else take_while good l1.
Proof.
  induction l1 as [|a l1 IH]; [done|]. simpl.
  destruct (good a); [|done]. simpl. rewrite IH.
  by destruct (forallb good l1).
Qed.

Lemma forallb_elem_of (good : A -> bool) (l : list A) :
  (forall a, a ∈ l -> good a = true) -> forallb good l = true.
Proof.
  intros Hall. apply forallb_forall. intros a Ha.
  apply Hall. by apply list_elem_of_In.
Qed.

Lemma bind_nil_all {C : Type} (f : A -> list C) (l : list A) :
  (forall a, f a = []) -> l ≫= f = [].
Proof.
  intros Hf. induction l as [|a l IH]; [done|].
  by rewrite bind_cons, Hf, IH.
Qed.

Lemma bind_singleton_fmap {C : Type} (g : A -> C) (l : list A) :
  l ≫= (fun a => [g a]) = g <$> l.
Proof.
  induction l as [|a l IH]; [done|].
  rewrite bind_cons, IH. done.
Qed.

Lemma filter_none (P : A -> bool) (l : list A) :
  (forall a, a ∈ l -> P a = false) -> List.filter P l = [].
Proof.
  induction l as [|a l IH]; intros HP; [done|]. simpl.
  rewrite HP by apply list_elem_of_here. apply IH.
  intros a' Ha'. apply HP. by apply list_elem_of_further.
Qed.

Lemma filter_all (P : A -> bool) (l : list A) :
  (forall a, a ∈ l -> P a = true) -> List.filter P l = l.
Proof.
  induction l as [|a l IH]; intros HP; [done|]. simpl.
  rewrite HP by apply list_elem_of_here. f_equal. apply IH.
  intros a' Ha'. apply HP. by apply list_elem_of_further.
Qed.

Lemma filter_agree (P Q : A -> bool) (l : list A) :
  (forall a, a ∈ l -> P a = Q a) -> List.filter P l = List.filter Q l.
Proof.
  induction l as [|a l IH]; intros HPQ; [done|]. simpl.
  rewrite HPQ by apply list_elem_of_here.
  rewrite IH; [done|]. intros a' Ha'. apply HPQ. by apply list_elem_of_further.
Qed.

Lemma elem_of_filter_bool (P : A -> bool) (l : list A) (a : A) :
  a ∈ List.filter P l <-> a ∈ l /\ P a = true.
Proof. rewrite !list_elem_of_In. apply List.filter_In. Qed.

(** Of the passes of a loop over [range(n)], those that pass [P] are the
    ones of iteration [b] when no other iteration has any. *)
Lemma filter_bind_select (P : A -> bool) (F : nat -> list A) (n b : nat) :
  b < n ->
  (forall b' a, b' <> b -> a ∈ F b' -> P a = false) ->
  List.filter P (seq 0 n ≫= F) = List.filter P (F b).
Proof.
  induction n as [|n IH]; intros Hb HP; [lia|].
  rewrite seq_S, bind_app, List.filter_app. simpl.
  rewrite app_nil_r.
  destruct (decide (b = n)) as [->|Hne].
  - rewrite filter_none; [done|].
    intros a Ha. apply list_elem_of_bind in Ha as (b' & Ha & Hb').
    apply elem_of_seq in Hb'. apply (HP b'); [lia|done].
  - rewrite IH by (done || lia).
    rewrite (filter_none P (F n)); [by rewrite app_nil_r|].
    intros a Ha. apply (HP n); [lia|done].
Qed.

(** Two distinct members of a list, with what comes before, between and
    after them. *)
Lemma two_elems_split (l : list A) (a c : A) :
  a ∈ l -> c ∈ l -> a <> c ->
  exists (l1 l2 l3 : list A) (a' c' : A),
    (a' = a /\ c' = c \/ a' = c /\ c' = a) /\
    l = l1 ++ a' :: l2 ++ c' :: l3.
Proof.
  intros Ha Hc Hne.
  apply list_elem_of_split in Ha as (l1 & l2 & ->).
  apply elem_of_app in Hc as [Hc|Hc].
  - apply list_elem_of_split in Hc as (l1a & l1b & ->).
    exists l1a, l1b, l2, c, a. split; [by right|].
    by rewrite <- app_assoc.
  - apply elem_of_cons in Hc as [->|Hc]; [done|].
    apply list_elem_of_split in Hc as (l2a & l2b & ->).
    exists l1, l2a, l2b, a, c. split; [by left|done].
Qed.

End PassLists.

Lemma elem_of_triples (B xWin yWin b i j : nat) :
  (b, i, j) ∈ triples B xWin yWin <-> b < B /\ i < xWin /\ j < yWin.
Proof.
  unfold triples. rewrite list_elem_of_bind. split.
  - intros (b' & Hin & Hb). apply list_elem_of_bind in Hin as (i' & Hin & Hi).
    apply list_elem_of_bind in Hin as (j' & Hin & Hj).
    apply list_elem_of_singleton in Hin. injection Hin as -> -> ->.
    apply elem_of_seq in Hb, Hi, Hj. lia.
  - intros (Hb & Hi & Hj). exists b. split; [|apply elem_of_seq; lia].
    apply list_elem_of_bind. exists i. split; [|apply elem_of_seq; lia].
    apply list_elem_of_bind. exists j. split; [|apply elem_of_seq; lia].
    by apply list_elem_of_singleton.
Qed.

Lemma elem_of_gemv_triples (B oWin iWin b j i : nat) :
  (b, j, i) ∈ gemv_triples B oWin iWin <-> b < B /\ j < oWin /\ i < iWin.
Proof. apply elem_of_triples. Qed.

(** The passes of the gemv loops that update row [(b, j)] are those of the
    innermost loop at [(b, j)], in its order. *)
Lemma gemv_row_triples (B oWin iWin b j : nat) :
  b < B -> j < oWin ->
  List.filter (in_row b j) (gemv_triples B oWin iWin)
  = (fun i => (b, j, i)) <$> seq 0 iWin.
Proof.
  intros Hb Hj. unfold gemv_triples.
  rewrite (filter_bind_select _ _ B b); [|done|].
  - rewrite (filter_bind_select _ _ oWin j); [|done|].
    + rewrite bind_singleton_fmap. apply filter_all.
      intros t Ht. apply list_elem_of_fmap in Ht as (i & -> & _).
      simpl. by rewrite !Nat.eqb_refl.
    + intros j' t Hne Ht. apply list_elem_of_bind in Ht as (i & Ht & _).
      apply list_elem_of_singleton in Ht as ->. simpl.
      apply Nat.eqb_neq in Hne. rewrite Hne. apply andb_false_r.
  - intros b' t Hne Ht. apply list_elem_of_bind in Ht as (j' & Ht & _).
    apply list_elem_of_bind in Ht as (i & Ht & _).
    apply list_elem_of_singleton in Ht as ->. simpl.
    apply Nat.eqb_neq in Hne. by rewrite Hne.
Qed.

(** ** Additions in loop order *)

Section Accumulate.

Context {R : Type} {HS : Scalar R}.

Lemma accumulate_cons {A : Type} (f : A -> R) (t : A) (l : list A) (a : R) :
  accumulate f (t :: l) a = accumulate f l (radd a (f t)).
Proof. reflexivity. Qed.

Lemma accumulate_app {A : Type} (f : A -> R) (l1 l2 : list A) (a : R) :
  accumulate f (l1 ++ l2) a = accumulate f l2 (accumulate f l1 a).
Proof. unfold accumulate. apply fold_left_app. Qed.

Lemma accumulate_ext {A : Type} (f g : A -> R) (l : list A) (a : R) :
  (forall t, t ∈ l -> f t = g t) -> accumulate f l a = accumulate g l a.
Proof.
  revert a. induction l as [|t l IH]; intros a Hfg; [done|].
  rewrite !accumulate_cons, Hfg by apply list_elem_of_here.
  apply IH. intros t' Ht'. apply Hfg. by apply list_elem_of_further.
Qed.

Lemma accumulate_fmap {A C : Type} (f : A -> R) (g : C -> A) (l : list C)
    (a : R) :
  accumulate f (g <$> l) a = accumulate (fun c => f (g c)) l a.
Proof.
  revert a. induction l as [|c l IH]; intros a; [done|].
  rewrite fmap_cons, !accumulate_cons. apply IH.
Qed.

(** Accumulating onto zero over [range(n)] is [sum_n]. *)
Lemma accumulate_seq_zero (f : nat -> R) (n : nat) :
  accumulate f (seq 0 n) rzero = sum_n n f.
Proof.
  induction n as [|n IH]; [done|].
  rewrite seq_S, accumulate_app, IH. reflexivity.
Qed.

(** Where addition is associative with zero as right identity, as on the
    integers and unlike on rounded floating-point numbers, accumulating onto
    [a] gives [a] plus the sum of the terms. *)
Lemma accumulate_exact (f : nat -> R) (n : nat) (a : R) :
  (forall x y z : R, radd x (radd y z) = radd (radd x y) z) ->
  (forall x : R, radd x rzero = x) ->
  accumulate f (seq 0 n) a = radd a (sum_n n f).
Proof.
  intros Hassoc Hzero. induction n as [|n IH]; [by rewrite Hzero|].
  rewrite seq_S, accumulate_app, IH. simpl.
  unfold accumulate. simpl. by rewrite Hassoc.
Qed.

End Accumulate.

(** ** Loops whose passes may raise [IndexError]

    The passes of a loop are listed in order; [Inv ts a] describes the
    accumulator [a] once the passes [ts] have been made.  A loop makes the
    passes of its list as long as they are [good] and raises [IndexError]
    at the first that is not, leaving what the good ones before it have
    written. *)

Section TraceLoops.

Context {R : Type} {HS : Scalar R} {T A : Type}.

Variables (st : A -> store R) (Inv : list T -> A -> Prop) (good : T -> bool).

Lemma for_each_trace (body : nat -> M R unit) (g : nat -> list T)
    (l : list nat) :
  (forall x ts a, x ∈ l -> Inv ts a ->
     exists a',
       body x (st a)
       = (st a', if forallb good (g x) then inr tt else inl IndexError) /\
       Inv (ts ++ take_while good (g x)) a') ->
  forall ts a, Inv ts a ->
    exists a',
      for_each l body (st a)
      = (st a', if forallb good (l ≫= g) then inr tt else inl IndexError) /\
      Inv (ts ++ take_while good (l ≫= g)) a'.
Proof.
  induction l as [|x l IH]; intros Hbody ts a HInv.
  - exists a. simpl. by rewrite app_nil_r.
  - rewrite bind_cons, forallb_app, take_while_app.
    destruct (Hbody x ts a) as (a1 & Hrun1 & HInv1);
      [apply list_elem_of_here|done|].
    destruct (forallb good (g x)) eqn:Hgx.
    + rewrite (take_while_all _ _ Hgx) in HInv1.
      destruct (IH (fun x' ts' a' Hx' => Hbody x' ts' a'
                      (list_elem_of_further _ _ _ Hx')) _ _ HInv1)
        as (a2 & Hrun2 & HInv2).
      exists a2. split.
      * simpl. by rewrite (bind_run _ _ _ _ _ Hrun1).
      * by rewrite app_assoc.
    + exists a1. split; [|done].
      simpl. by rewrite (bind_raise _ _ _ _ _ Hrun1).
Qed.

Lemma for_range_trace (body : nat -> M R unit) (g : nat -> list T) (n : nat) :
  (forall x ts a, x < n -> Inv ts a ->
     exists a',
       body x (st a)
       = (st a', if forallb good (g x) then inr tt else inl IndexError) /\
       Inv (ts ++ take_while good (g x)) a') ->
  forall ts a, Inv ts a ->
    exists a',
      for_range n body (st a)
      = (st a',
         if forallb good (seq 0 n ≫= g) then inr tt else inl IndexError) /\
      Inv (ts ++ take_while good (seq 0 n ≫= g)) a'.
Proof.
  intros Hbody. apply for_each_trace.
  intros x ts a Hx. apply Hbody. apply elem_of_seq in Hx. lia.
Qed.

End TraceLoops.

(** ** The gemv kernel *)

Section GemvKernel.

Context {R : Type} {HS : Scalar R}.

Variables (s0 : store R) (lo lW lh li lj : nat).
Variables (o : tensor3 R) (W : tensor4 R) (h : tensor3 R) (iIdx oIdx : index2).
Variables (B oWin oSize iWin iSize iBlocks oBlocks : nat).

Hypothesis Hlo : lo < length s0.
Hypothesis HlW :
  s0 !! lW = Some (mkArray [iBlocks; oBlocks; iSize; oSize] (Float4 W)).
Hypothesis Hlh : s0 !! lh = Some (mkArray [B; iWin; iSize] (Float3 h)).
Hypothesis Hli : s0 !! li = Some (mkArray [B; iWin] (Int2 iIdx)).
Hypothesis Hlj : s0 !! lj = Some (mkArray [B; oWin] (Int2 oIdx)).
Hypothesis HneW : lo <> lW.
Hypothesis Hneh : lo <> lh.
Hypothesis Hnei : lo <> li.
Hypothesis Hnej : lo <> lj.
Hypothesis HWok : shape4_ok iBlocks oBlocks iSize oSize W = true.
Hypothesis Hhok : shape3_ok B iWin iSize h = true.
Hypothesis Hiok : shape2_ok B iWin iIdx = true.
Hypothesis Hjok : shape2_ok B oWin oIdx = true.

(** The store while the loops run: [s0] with the accumulator replaced. *)
Local Abbreviation st a :=
  (<[lo := mkArray [B; oWin; oSize] (Float3 a)]> s0).

Local Abbreviation ok a := (shape3_ok B oWin oSize a = true).

Local Abbreviation good := (gemv_pair_ok iBlocks oBlocks iIdx oIdx).

Local Abbreviation term k :=
  (gemv_term_w iSize iBlocks oBlocks h W iIdx oIdx k).

(** The accumulator once the passes [ts] have been made, starting from
    [o]. *)
Local Abbreviation Inv :=
  (fun (ts : list (nat * nat * nat)) (a : tensor3 R) =>
     shape3_ok B oWin oSize a = true /\
     forall b j k, b < B -> j < oWin -> k < oSize ->
       get3 a b j k
       = accumulate (term k) (List.filter (in_row b j) ts) (get3 o b j k)).

(** One pass of the innermost loop: an accepted index pair adds the product
    to row [(b, j)] and leaves the other rows; a rejected one raises
    [IndexError] before anything is written. *)
Lemma gemv_loop_i_step (a : tensor3 R) (b j i : nat) :
  b < B -> j < oWin -> i < iWin -> ok a ->
  if good (b, j, i)
  then exists a',
    CpuSparseBlockGemv.loop_i lo lW lh li b j (geti oIdx b j) i (st a)
    = (st a', inr tt) /\
    ok a' /\
    (forall k, k < oSize ->
       get3 a' b j k = radd (get3 a b j k) (term k (b, j, i))) /\
    (forall b' j' k, b' <> b \/ j' <> j ->
       get3 a' b' j' k = get3 a b' j' k)
  else
    CpuSparseBlockGemv.loop_i lo lW lh li b j (geti oIdx b j) i (st a)
    = (st a, inl IndexError).
Proof.
  intros Hb Hj Hi Haok.
  destruct (idx_lookup_shape B iWin iIdx b i Hiok Hb Hi) as (irow & Hirow & Hiz).
  assert (Hsto : st a !! lo = Some (mkArray [B; oWin; oSize] (Float3 a)))
    by (by apply list_lookup_insert_eq).
  assert (Hpre :
            CpuSparseBlockGemv.loop_i lo lW lh li b j (geti oIdx b j) i (st a)
            = (run w <- getitem_block lW (geti iIdx b i) (geti oIdx b j);
               run _ <- getitem_row lo b j;
               run hv <- getitem_row lh b i;
               run d <- lift (numpy_dot hv (snd w));
               iadd_row lo b j d) (st a)).
  { unfold CpuSparseBlockGemv.loop_i.
    erewrite bind_run; cycle 1.
    { eapply getitem_int2_run; [|exact Hirow|exact Hiz].
      by rewrite list_lookup_insert_ne. }
    reflexivity. }
  rewrite Hpre. clear Hpre.
  assert (HstW : st a !! lW
                 = Some (mkArray [iBlocks; oBlocks; iSize; oSize] (Float4 W)))
    by (by rewrite list_lookup_insert_ne).
  destruct (good (b, j, i)) eqn:Hgood.
  - simpl in Hgood. apply andb_true_iff in Hgood as [Hgi Hgj].
    set (p0 := wblock iBlocks iIdx b i). set (q0 := wblock oBlocks oIdx b j).
    assert (Hp0 : p0 < iBlocks) by (by apply wrap_nat_lt).
    assert (Hq0 : q0 < oBlocks) by (by apply wrap_nat_lt).
    destruct (shape4_ok_lookup _ _ _ _ W p0 HWok Hp0) as (t3 & Ht3 & Ht3ok).
    destruct (shape3_ok_lookup _ _ _ t3 q0 Ht3ok Hq0) as (blk & Hblk & Hblkok).
    destruct (shape3_ok_lookup _ _ _ a b Haok Hb) as (m & Hm & Hmok).
    destruct (shape2_ok_lookup _ _ m j Hmok Hj) as (row & Hrow & Hrowlen).
    destruct (shape3_ok_lookup _ _ _ h b Hhok Hb) as (hm & Hhm & Hhmok).
    destruct (shape2_ok_lookup _ _ hm i Hhmok Hi) as (hv & Hhv & Hhvlen).
    destruct (numpy_dot_spec hv (mkArray2 iSize oSize blk) Hhvlen)
      as (d & Hd & Hdlen & Hdk).
    destruct (iadd_vec_spec row d) as (row' & Hrow' & Hrow'len & Hrow'k);
      [simpl in Hdlen; lia|].
    exists (<[b := <[j := row']> m]> a). split; [|split; [|split]].
    + erewrite bind_run; cycle 1.
      { eapply getitem_block_wrap;
          [exact HstW|exact Hgi|exact Hgj|exact Ht3|exact Hblk]. }
      erewrite bind_run; cycle 1.
      { eapply getitem_row_run; [exact Hsto|exact Hm|exact Hrow]. }
      erewrite bind_run; cycle 1.
      { eapply getitem_row_run; [|exact Hhm|exact Hhv].
        by rewrite list_lookup_insert_ne. }
      erewrite bind_run; cycle 1.
      { unfold lift. simpl. by rewrite Hd. }
      erewrite iadd_row_run; [|exact Hsto|exact Hm|exact Hrow|exact Hrow'].
      by rewrite list_insert_insert_eq.
    + apply shape3_ok_insert; [done|].
      apply shape2_ok_insert; [done|lia].
    + intros k Hk.
      apply shape3_ok_spec in Haok as [Halen _].
      apply shape2_ok_spec in Hmok as [Hmlen _].
      rewrite get3_insert_eq by lia. rewrite get2_insert_eq by lia.
      rewrite Hrow'k by lia. rewrite Hdk by done.
      rewrite (get3_lookup _ _ _ _ _ Hm), (get2_lookup _ _ _ _ Hrow).
      f_equal. unfold gemv_term_w, dot_entry. simpl. rewrite Hhvlen.
      apply sum_n_ext. intros m' _.
      rewrite (get3_lookup _ _ _ _ _ Hhm), (get2_lookup _ _ _ _ Hhv).
      fold p0 q0.
      by rewrite (get4_lookup _ _ _ _ _ _ Ht3), (get3_lookup _ _ _ _ _ Hblk).
    + intros b' j' k [Hne|Hne].
      * by rewrite get3_insert_ne.
      * destruct (decide (b = b')) as [<-|Hbb]; [|by rewrite get3_insert_ne].
        apply shape3_ok_spec in Haok as [Halen _].
        rewrite get3_insert_eq by lia.
        rewrite get2_insert_ne by done. by rewrite (get3_lookup _ _ _ _ _ Hm).
  - apply bind_raise.
    eapply getitem_block_reject; [exact HstW|exact Hgood].
Qed.

Lemma gemv_loop_i_trace (b j i : nat) (ts : list (nat * nat * nat))
    (a : tensor3 R) :
  b < B -> j < oWin -> i < iWin -> Inv ts a ->
  exists a',
    CpuSparseBlockGemv.loop_i lo lW lh li b j (geti oIdx b j) i (st a)
    = (st a', if forallb good [(b, j, i)] then inr tt else inl IndexError) /\
    Inv (ts ++ take_while good [(b, j, i)]) a'.
Proof.
  intros Hb Hj Hi [Haok Ha].
  pose proof (gemv_loop_i_step a b j i Hb Hj Hi Haok) as Hstep.
  cbn [forallb take_while].
  destruct (good (b, j, i)); cbn [andb].
  - destruct Hstep as (a' & Hrun & Hok' & Heq & Hne).
    exists a'. split; [done|]. split; [done|].
    intros b' j' k Hb' Hj' Hk.
    rewrite List.filter_app, accumulate_app. cbn [List.filter in_row].
    destruct (decide (b = b')) as [<-|Hbb].
    + rewrite Nat.eqb_refl. cbn [andb].
      destruct (decide (j = j')) as [<-|Hjj].
      * rewrite Nat.eqb_refl. rewrite accumulate_cons. cbn [accumulate fold_left].
        rewrite Heq by done. by rewrite Ha.
      * apply Nat.eqb_neq in Hjj as Hjj'. rewrite Hjj'.
        cbn [accumulate fold_left].
        rewrite Hne by (right; congruence). by apply Ha.
    + apply Nat.eqb_neq in Hbb as Hbb'. rewrite Hbb'. cbn [andb].
      cbn [accumulate fold_left].
      rewrite Hne by (left; congruence). by apply Ha.
  - rewrite app_nil_r. exists a. done.
Qed.

Lemma gemv_loop_j_trace (b j : nat) (ts : list (nat * nat * nat))
    (a : tensor3 R) :
  b < B -> j < oWin -> Inv ts a ->
  exists a',
    CpuSparseBlockGemv.loop_j lo lW lh li lj b j (st a)
    = (st a',
       if forallb good (seq 0 iWin ≫= (fun i => [(b, j, i)]))
       then inr tt else inl IndexError) /\
    Inv (ts ++ take_while good (seq 0 iWin ≫= (fun i => [(b, j, i)]))) a'.
Proof.
  intros Hb Hj HInv.
  destruct (idx_lookup_shape B oWin oIdx b j Hjok Hb Hj) as (jrow & Hjrow & Hjz).
  unfold CpuSparseBlockGemv.loop_j.
  erewrite bind_run; cycle 1.
  { eapply getitem_int2_run; [|exact Hjrow|exact Hjz].
    by rewrite list_lookup_insert_ne. }
  erewrite bind_run; cycle 1.
  { eapply shape_of_run; [by rewrite list_lookup_insert_ne|]. reflexivity. }
  apply (for_range_trace (fun a' => st a') Inv good
           (CpuSparseBlockGemv.loop_i lo lW lh li b j (geti oIdx b j))
           (fun i => [(b, j, i)]) iWin); [|done].
  intros i ts' a1 Hi HInv1. by apply gemv_loop_i_trace.
Qed.

Lemma gemv_loop_b_trace (b : nat) (ts : list (nat * nat * nat))
    (a : tensor3 R) :
  b < B -> Inv ts a ->
  exists a',
    CpuSparseBlockGemv.loop_b lo lW lh li lj b (st a)
    = (st a',
       if forallb good
            (seq 0 oWin ≫= (fun j => seq 0 iWin ≫= (fun i => [(b, j, i)])))
       then inr tt else inl IndexError) /\
    Inv (ts ++ take_while good
                 (seq 0 oWin ≫=
                    (fun j => seq 0 iWin ≫= (fun i => [(b, j, i)])))) a'.
Proof.
  intros Hb HInv. unfold CpuSparseBlockGemv.loop_b.
  erewrite bind_run; cycle 1.
  { eapply shape_of_run; [by apply list_lookup_insert_eq|]. reflexivity. }
  apply (for_range_trace (fun a' => st a') Inv good
           (CpuSparseBlockGemv.loop_j lo lW lh li lj b)
           (fun j => seq 0 iWin ≫= (fun i => [(b, j, i)])) oWin); [|done].
  intros j ts' a1 Hj HInv1. by apply gemv_loop_j_trace.
Qed.

(** The three loops, started on [o]: they make the passes of
    [gemv_triples] up to the first rejected one. *)
Lemma gemv_loops_trace :
  ok o ->
  exists a',
    for_range B (CpuSparseBlockGemv.loop_b lo lW lh li lj) (st o)
    = (st a',
       if forallb good (gemv_triples B oWin iWin)
       then inr tt else inl IndexError) /\
    Inv (take_while good (gemv_triples B oWin iWin)) a'.
Proof.
  intros Hook. unfold gemv_triples.
  apply (for_range_trace (fun a' => st a') Inv good
           (CpuSparseBlockGemv.loop_b lo lW lh li lj)
           (fun b => seq 0 oWin ≫=
                       (fun j => seq 0 iWin ≫= (fun i => [(b, j, i)])))
           B) with (ts := []).
  - intros b ts' a1 Hb HInv1. by apply gemv_loop_b_trace.
  - split; [done|]. intros b j k _ _ _. reflexivity.
Qed.

End GemvKernel.

Section GemvPerform.

Context {R : Type} {HS : Scalar R}.

(** What [perform] leaves behind and returns on arrays of the documented
    shapes, whatever the index values and in either mode.  The array [a]
    replaces [o] in place, or is appended as a fresh object; it holds [o]
    with the products of the passes made added in loop order; the call
    returns [a]'s location when every pass is accepted and raises
    [IndexError] at the first that is not. *)
Lemma gemv_perform_cases (self : Op) (s : store R)
    (lo lW lh li lj : nat) (rest : list nat)
    (o : tensor3 R) (W : tensor4 R) (h : tensor3 R) (iIdx oIdx : index2)
    (B oWin oSize iWin iSize iBlocks oBlocks : nat) :
  gemv_arrays s lo lW lh li lj o W h iIdx oIdx
              B oWin oSize iWin iSize iBlocks oBlocks ->
  (inplace self = true -> lo <> lh) ->
  exists a : tensor3 R,
    CpuSparseBlockGemv.perform self (lo :: lW :: lh :: li :: lj :: rest) s
    = (if inplace self
       then <[lo := mkArray [B; oWin; oSize] (Float3 a)]> s
       else s ++ [mkArray [B; oWin; oSize] (Float3 a)],
       if gemv_indices_ok iBlocks oBlocks iIdx oIdx B oWin iWin
       then inr (if inplace self then lo else length s)
       else inl IndexError) /\
    shape3_ok B oWin oSize a = true /\
    (forall b j k, b < B -> j < oWin -> k < oSize ->
       get3 a b j k
       = accumulate (gemv_term_w iSize iBlocks oBlocks h W iIdx oIdx k)
           (List.filter (in_row b j)
              (take_while (gemv_pair_ok iBlocks oBlocks iIdx oIdx)
                 (gemv_triples B oWin iWin)))
           (get3 o b j k)).
Proof.
  intros [Ho HW Hh Hi Hj Hook HWok Hhok Hiok Hjok] Halias.
  unfold CpuSparseBlockGemv.perform, gemv_indices_ok.
  destruct (inplace self) eqn:Hmode; simpl.
  - pose proof (gemv_loops_trace s lo lW lh li lj o W h iIdx oIdx
                  B oWin oSize iWin iSize iBlocks oBlocks) as Hloops.
    assert (HnW : lo <> lW) by (intros ->; congruence).
    assert (Hni : lo <> li) by (intros ->; congruence).
    assert (Hnj : lo <> lj) by (intros ->; congruence).
    specialize (Hloops (lookup_lt_Some _ _ _ Ho) HW Hh Hi Hj
                       HnW (Halias eq_refl) Hni Hnj HWok Hhok Hiok Hjok Hook).
    rewrite (list_insert_id s lo _ Ho) in Hloops.
    assert (Hshape : shape_of lo 0 s = (s, inr B)).
    { eapply shape_of_run; [exact Ho|reflexivity]. }
    destruct Hloops as (a & Hrun & Haok & Ha).
    exists a. split; [|split; [done|exact Ha]].
    unfold bind at 1, ret at 1.
    erewrite bind_run; [|exact Hshape].
    revert Hrun.
    destruct (forallb (gemv_pair_ok iBlocks oBlocks iIdx oIdx)
                      (gemv_triples B oWin iWin)); intros Hrun.
    + erewrite bind_run; [|exact Hrun]. done.
    + erewrite bind_raise; [|exact Hrun]. done.
  - set (s1 := s ++ [mkArray [B; oWin; oSize] (Float3 o)]).
    assert (Hfresh : forall l a,
              s !! l = Some a -> s1 !! l = Some a /\ length s <> l).
    { intros l a Hl. split; [by apply lookup_app_l_Some|].
      apply lookup_lt_Some in Hl. lia. }
    pose proof (gemv_loops_trace s1 (length s) lW lh li lj o W h iIdx oIdx
                  B oWin oSize iWin iSize iBlocks oBlocks) as Hloops.
    assert (Hlen : length s < length s1)
      by (unfold s1; rewrite length_app; simpl; lia).
    specialize (Hloops Hlen (proj1 (Hfresh _ _ HW)) (proj1 (Hfresh _ _ Hh))
                       (proj1 (Hfresh _ _ Hi)) (proj1 (Hfresh _ _ Hj))
                       (proj2 (Hfresh _ _ HW)) (proj2 (Hfresh _ _ Hh))
                       (proj2 (Hfresh _ _ Hi)) (proj2 (Hfresh _ _ Hj))
                       HWok Hhok Hiok Hjok Hook).
    assert (Hs1 : forall a : tensor3 R,
              <[length s := mkArray [B; oWin; oSize] (Float3 a)]> s1
              = s ++ [mkArray [B; oWin; oSize] (Float3 a)]).
    { intros a. unfold s1.
      replace (length s) with (length s + 0) at 1 by lia.
      by rewrite insert_app_r. }
    assert (Hcopy : copy lo s = (s1, inr (length s))).
    { unfold copy. erewrite bind_run; [|apply load_run; exact Ho]. reflexivity. }
    assert (Hshape : shape_of (length s) 0 s1 = (s1, inr B)).
    { eapply shape_of_run; [by apply list_lookup_middle|reflexivity]. }
    destruct Hloops as (a & Hrun & Haok & Ha). rewrite !Hs1 in Hrun.
    exists a. split; [|split; [done|exact Ha]].
    erewrite bind_run; [|exact Hcopy].
    erewrite bind_run; [|exact Hshape].
    revert Hrun.
    destruct (forallb (gemv_pair_ok iBlocks oBlocks iIdx oIdx)
                      (gemv_triples B oWin iWin)); intros Hrun.
    + erewrite bind_run; [|exact Hrun]. done.
    + erewrite bind_raise; [|exact Hrun]. done.
Qed.

(** On a valid input every pass is accepted: [perform] returns the array
    [r] in which every row [(b, j)] is [o]'s row with the products of the
    input window added one after the other, [i = 0] first. *)
Lemma gemv_perform_run (self : Op) (s : store R) (lo lW lh li lj : nat)
    (rest : list nat) (o : tensor3 R) (W : tensor4 R) (h : tensor3 R)
    (iIdx oIdx : index2) (B oWin oSize iWin iSize iBlocks oBlocks : nat) :
  gemv_input s lo lW lh li lj o W h iIdx oIdx
             B oWin oSize iWin iSize iBlocks oBlocks ->
  (inplace self = true -> lo <> lh) ->
  exists r : tensor3 R,
    CpuSparseBlockGemv.perform self (lo :: lW :: lh :: li :: lj :: rest) s
    = (if inplace self
       then <[lo := mkArray [B; oWin; oSize] (Float3 r)]> s
       else s ++ [mkArray [B; oWin; oSize] (Float3 r)],
       inr (if inplace self then lo else length s)) /\
    shape3_ok B oWin oSize r = true /\
    (forall b j k, b < B -> j < oWin -> k < oSize ->
       get3 r b j k
       = accumulate
           (fun i => dot_entry iSize h W b i
                       (block_of iIdx b i) (block_of oIdx b j) k)
           (seq 0 iWin) (get3 o b j k)).
Proof.
  intros [Ho HW Hh Hi Hj Hook HWok Hhok Hiok Hjok Hir Hjr] Halias.
  destruct (gemv_perform_cases self s lo lW lh li lj rest o W h iIdx oIdx
              B oWin oSize iWin iSize iBlocks oBlocks)
    as (r & Hrun & Hrok & Hr); [by constructor|done|].
  assert (Hall : forallb (gemv_pair_ok iBlocks oBlocks iIdx oIdx)
                         (gemv_triples B oWin iWin) = true).
  { apply forallb_elem_of. intros [[b j] i] Ht.
    apply elem_of_gemv_triples in Ht as (Hb & Hj' & Hi').
    simpl. apply andb_true_iff.
    split; eapply in_range_wrap; eauto. }
  unfold gemv_indices_ok in Hrun. rewrite Hall in Hrun.
  exists r. split; [done|]. split; [done|].
  intros b j k Hb Hj' Hk. rewrite Hr by done.
  rewrite (take_while_all _ _ Hall), gemv_row_triples by done.
  rewrite accumulate_fmap. apply accumulate_ext.
  intros i Hi'. apply elem_of_seq in Hi'. simpl.
  destruct (in_range_wrap B iBlocks iWin iIdx b i Hiok Hir Hb) as (_ & -> & _);
    [lia|].
  by destruct (in_range_wrap B oBlocks oWin oIdx b j Hjok Hjr Hb Hj')
    as (_ & -> & _).
Qed.

End GemvPerform.

(** ** The outer-product kernel *)

Section OuterKernel.

Context {R : Type} {HS : Scalar R}.

Variables (s0 : store R) (lo lx ly li lj : nat).
Variables (o : tensor4 R) (x y : tensor3 R) (xIdx yIdx : index2).
Variables (B xWin yWin xSize ySize xBlocks yBlocks : nat).

Hypothesis Hlo : lo < length s0.
Hypothesis Hlx : s0 !! lx = Some (mkArray [B; xWin; xSize] (Float3 x)).
Hypothesis Hly : s0 !! ly = Some (mkArray [B; yWin; ySize] (Float3 y)).
Hypothesis Hli : s0 !! li = Some (mkArray [B; xWin] (Int2 xIdx)).
Hypothesis Hlj : s0 !! lj = Some (mkArray [B; yWin] (Int2 yIdx)).
Hypothesis Hnex : lo <> lx.
Hypothesis Hney : lo <> ly.
Hypothesis Hnei : lo <> li.
Hypothesis Hnej : lo <> lj.
Hypothesis Hxok : shape3_ok B xWin xSize x = true.
Hypothesis Hyok : shape3_ok B yWin ySize y = true.
Hypothesis Hiok : shape2_ok B xWin xIdx = true.
Hypothesis Hjok : shape2_ok B yWin yIdx = true.

Local Abbreviation st a :=
  (<[lo := mkArray [xBlocks; yBlocks; xSize; ySize] (Float4 a)]> s0).

Local Abbreviation ok a := (shape4_ok xBlocks yBlocks xSize ySize a = true).

Local Abbreviation good := (outer_pair_ok xBlocks yBlocks xIdx yIdx).

Local Abbreviation hit p q := (addresses_w xBlocks yBlocks xIdx yIdx p q).

(** The accumulator once the passes [ts] have been made, starting from
    [o]. *)
Local Abbreviation Inv :=
  (fun (ts : list (nat * nat * nat)) (a : tensor4 R) =>
     shape4_ok xBlocks yBlocks xSize ySize a = true /\
     forall p q m k, p < xBlocks -> q < yBlocks -> m < xSize -> k < ySize ->
       get4 a p q m k
       = accumulate (outer_term x y m k) (List.filter (hit p q) ts)
           (get4 o p q m k)).

(** One pass of the innermost loop: an accepted index pair adds the outer
    product to the block it addresses and leaves the other blocks; a
    rejected one raises [IndexError] before anything is written. *)
Lemma outer_loop_j_step (b i j : nat) (a : tensor4 R) :
  b < B -> i < xWin -> j < yWin -> ok a ->
  if good (b, i, j)
  then exists a',
    CpuSparseBlockOuter.loop_j lo lx ly li lj b i j (st a) = (st a', inr tt) /\
    ok a' /\
    forall p q m k, p < xBlocks -> q < yBlocks -> m < xSize -> k < ySize ->
      get4 a' p q m k
      = if hit p q (b, i, j)
        then radd (get4 a p q m k) (outer_term x y m k (b, i, j))
        else get4 a p q m k
  else
    CpuSparseBlockOuter.loop_j lo lx ly li lj b i j (st a)
    = (st a, inl IndexError).
Proof.
  intros Hb Hi Hj Haok.
  destruct (idx_lookup_shape B xWin xIdx b i Hiok Hb Hi) as (irow & Hirow & Hiz).
  destruct (idx_lookup_shape B yWin yIdx b j Hjok Hb Hj) as (jrow & Hjrow & Hjz).
  assert (Hsto : st a !! lo
                 = Some (mkArray [xBlocks; yBlocks; xSize; ySize] (Float4 a)))
    by (by apply list_lookup_insert_eq).
  assert (Hpre :
            CpuSparseBlockOuter.loop_j lo lx ly li lj b i j (st a)
            = (run view <- getitem_block lo (geti xIdx b i) (geti yIdx b j);
               run xv <- getitem_row lx b i;
               run yv <- getitem_row ly b j;
               iadd_block lo (fst (fst view)) (snd (fst view))
                 (numpy_outer xv yv)) (st a)).
  { unfold CpuSparseBlockOuter.loop_j.
    erewrite bind_run; cycle 1.
    { eapply getitem_int2_run; [|exact Hirow|exact Hiz].
      by rewrite list_lookup_insert_ne. }
    erewrite bind_run; cycle 1.
    { eapply getitem_int2_run; [|exact Hjrow|exact Hjz].
      by rewrite list_lookup_insert_ne. }
    reflexivity. }
  rewrite Hpre. clear Hpre.
  destruct (good (b, i, j)) eqn:Hgood.
  - simpl in Hgood. apply andb_true_iff in Hgood as [Hgi Hgj].
    set (p0 := wblock xBlocks xIdx b i). set (q0 := wblock yBlocks yIdx b j).
    assert (Hp0 : p0 < xBlocks) by (by apply wrap_nat_lt).
    assert (Hq0 : q0 < yBlocks) by (by apply wrap_nat_lt).
    destruct (shape4_ok_lookup _ _ _ _ a p0 Haok Hp0) as (t3 & Ht3 & Ht3ok).
    destruct (shape3_ok_lookup _ _ _ t3 q0 Ht3ok Hq0) as (blk & Hblk & Hblkok).
    destruct (shape3_ok_lookup _ _ _ x b Hxok Hb) as (xm & Hxm & Hxmok).
    destruct (shape2_ok_lookup _ _ xm i Hxmok Hi) as (xv & Hxv & Hxvlen).
    destruct (shape3_ok_lookup _ _ _ y b Hyok Hb) as (ym & Hym & Hymok).
    destruct (shape2_ok_lookup _ _ ym j Hymok Hj) as (yv & Hyv & Hyvlen).
    destruct (iadd_mat_spec (mkArray2 xSize ySize blk) (numpy_outer xv yv))
      as (blk' & Hblk' & Hblk'ok & Hblk'k); [done|done|done|].
    cbn [nrows ncols rows] in Hblk'ok, Hblk'k.
    exists (<[p0 := <[q0 := blk']> t3]> a). split; [|split].
    + erewrite bind_run; cycle 1.
      { eapply getitem_block_wrap;
          [exact Hsto|exact Hgi|exact Hgj|exact Ht3|exact Hblk]. }
      erewrite bind_run; cycle 1.
      { eapply getitem_row_run; [|exact Hxm|exact Hxv].
        by rewrite list_lookup_insert_ne. }
      erewrite bind_run; cycle 1.
      { eapply getitem_row_run; [|exact Hym|exact Hyv].
        by rewrite list_lookup_insert_ne. }
      simpl.
      erewrite iadd_block_run; [|exact Hsto|exact Ht3|exact Hblk|exact Hblk'].
      by rewrite list_insert_insert_eq.
    + apply shape4_ok_insert; [done|]. by apply shape3_ok_insert.
    + intros p q m k Hp Hq Hm Hk. cbn [addresses_w outer_term]. fold p0 q0.
      pose proof Haok as Haok'. apply shape4_ok_spec in Haok' as [Halen _].
      pose proof Ht3ok as Ht3ok'. apply shape3_ok_spec in Ht3ok' as [Htlen _].
      destruct (decide (p0 = p)) as [<-|Hpp].
      * rewrite Nat.eqb_refl. cbn [andb]. rewrite get4_insert_eq by lia.
        rewrite (get4_lookup _ _ _ _ _ _ Ht3).
        destruct (decide (q0 = q)) as [<-|Hqq].
        -- rewrite Nat.eqb_refl. rewrite get3_insert_eq by lia.
           rewrite Hblk'k by done. rewrite (get3_lookup _ _ _ _ _ Hblk).
           f_equal. rewrite get2_outer by lia. unfold outer_entry.
           rewrite (get3_lookup _ _ _ _ _ Hxm), (get2_lookup _ _ _ _ Hxv).
           by rewrite (get3_lookup _ _ _ _ _ Hym), (get2_lookup _ _ _ _ Hyv).
        -- rewrite get3_insert_ne by done.
           apply Nat.eqb_neq in Hqq. by rewrite Hqq.
      * rewrite get4_insert_ne by done.
        apply Nat.eqb_neq in Hpp. by rewrite Hpp.
  - apply bind_raise.
    eapply getitem_block_reject; [exact Hsto|exact Hgood].
Qed.

Lemma outer_loop_j_trace (b i j : nat) (ts : list (nat * nat * nat))
    (a : tensor4 R) :
  b < B -> i < xWin -> j < yWin -> Inv ts a ->
  exists a',
    CpuSparseBlockOuter.loop_j lo lx ly li lj b i j (st a)
    = (st a', if forallb good [(b, i, j)] then inr tt else inl IndexError) /\
    Inv (ts ++ take_while good [(b, i, j)]) a'.
Proof.
  intros Hb Hi Hj [Haok Ha].
  pose proof (outer_loop_j_step b i j a Hb Hi Hj Haok) as Hstep.
  cbn [forallb take_while].
  destruct (good (b, i, j)); cbn [andb].
  - destruct Hstep as (a' & Hrun & Hok' & Heq).
    exists a'. split; [done|]. split; [done|].
    intros p q m k Hp Hq Hm Hk. rewrite Heq by done.
    rewrite List.filter_app, accumulate_app. cbn [List.filter].
    destruct (hit p q (b, i, j)).
    + rewrite accumulate_cons. cbn [accumulate fold_left]. by rewrite Ha.
    + cbn [accumulate fold_left]. by apply Ha.
  - rewrite app_nil_r. exists a. done.
Qed.

Lemma outer_loop_i_trace (b i : nat) (ts : list (nat * nat * nat))
    (a : tensor4 R) :
  b < B -> i < xWin -> Inv ts a ->
  exists a',
    CpuSparseBlockOuter.loop_i lo lx ly li lj b i (st a)
    = (st a',
       if forallb good (seq 0 yWin ≫= (fun j => [(b, i, j)]))
       then inr tt else inl IndexError) /\
    Inv (ts ++ take_while good (seq 0 yWin ≫= (fun j => [(b, i, j)]))) a'.
Proof.
  intros Hb Hi HInv. unfold CpuSparseBlockOuter.loop_i.
  erewrite bind_run; cycle 1.
  { eapply shape_of_run; [by rewrite list_lookup_insert_ne|]. reflexivity. }
  apply (for_range_trace (fun a' => st a') Inv good
           (CpuSparseBlockOuter.loop_j lo lx ly li lj b i)
           (fun j => [(b, i, j)]) yWin); [|done].
  intros j ts' a1 Hj HInv1. by apply outer_loop_j_trace.
Qed.

Lemma outer_loop_b_trace (b : nat) (ts : list (nat * nat * nat))
    (a : tensor4 R) :
  b < B -> Inv ts a ->
  exists a',
    CpuSparseBlockOuter.loop_b lo lx ly li lj b (st a)
    = (st a',
       if forallb good
            (seq 0 xWin ≫= (fun i => seq 0 yWin ≫= (fun j => [(b, i, j)])))
       then inr tt else inl IndexError) /\
    Inv (ts ++ take_while good
                 (seq 0 xWin ≫=
                    (fun i => seq 0 yWin ≫= (fun j => [(b, i, j)])))) a'.
Proof.
  intros Hb HInv. unfold CpuSparseBlockOuter.loop_b.
  erewrite bind_run; cycle 1.
  { eapply shape_of_run; [by rewrite list_lookup_insert_ne|]. reflexivity. }
  apply (for_range_trace (fun a' => st a') Inv good
           (CpuSparseBlockOuter.loop_i lo lx ly li lj b)
           (fun i => seq 0 yWin ≫= (fun j => [(b, i, j)])) xWin); [|done].
  intros i ts' a1 Hi HInv1. by apply outer_loop_i_trace.
Qed.

(** The three loops, started on [o]: they make the passes of [triples] up
    to the first rejected one. *)
Lemma outer_loops_trace :
  ok o ->
  exists a',
    for_range B (CpuSparseBlockOuter.loop_b lo lx ly li lj) (st o)
    = (st a',
       if forallb good (triples B xWin yWin)
       then inr tt else inl IndexError) /\
    Inv (take_while good (triples B xWin yWin)) a'.
Proof.
  intros Hook. unfold triples.
  apply (for_range_trace (fun a' => st a') Inv good
           (CpuSparseBlockOuter.loop_b lo lx ly li lj)
           (fun b => seq 0 xWin ≫=
                       (fun i => seq 0 yWin ≫= (fun j => [(b, i, j)])))
           B) with (ts := []).
  - intros b ts' a1 Hb HInv1. by apply outer_loop_b_trace.
  - split; [done|]. intros p q m k _ _ _ _. reflexivity.
Qed.

End OuterKernel.

Section OuterPerform.

Context {R : Type} {HS : Scalar R}.

(** What [perform] leaves behind and returns on arrays of the documented
    shapes, whatever the index values and in either mode.  The location
    passed as [alpha] is arbitrary: it is never dereferenced. *)
Lemma outer_perform_cases (self : Op) (s : store R)
    (lo lx ly li lj la : nat) (rest : list nat)
    (o : tensor4 R) (x y : tensor3 R) (xIdx yIdx : index2)
    (B xWin yWin xSize ySize xBlocks yBlocks : nat) :
  outer_arrays s lo lx ly li lj o x y xIdx yIdx
               B xWin yWin xSize ySize xBlocks yBlocks ->
  exists a : tensor4 R,
    CpuSparseBlockOuter.perform self
      (lo :: lx :: ly :: li :: lj :: la :: rest) s
    = (if inplace self
       then <[lo := mkArray [xBlocks; yBlocks; xSize; ySize] (Float4 a)]> s
       else s ++ [mkArray [xBlocks; yBlocks; xSize; ySize] (Float4 a)],
       if outer_indices_ok xBlocks yBlocks xIdx yIdx B xWin yWin
       then inr (if inplace self then lo else length s)
       else inl IndexError) /\
    shape4_ok xBlocks yBlocks xSize ySize a = true /\
    (forall p q m k, p < xBlocks -> q < yBlocks -> m < xSize -> k < ySize ->
       get4 a p q m k
       = accumulate (outer_term x y m k)
           (List.filter (addresses_w xBlocks yBlocks xIdx yIdx p q)
              (take_while (outer_pair_ok xBlocks yBlocks xIdx yIdx)
                 (triples B xWin yWin)))
           (get4 o p q m k)).
Proof.
  intros [Ho Hx Hy Hi Hj Hook Hxok Hyok Hiok Hjok].
  unfold CpuSparseBlockOuter.perform, outer_indices_ok.
  destruct (inplace self) eqn:Hmode; simpl.
  - pose proof (outer_loops_trace s lo lx ly li lj o x y xIdx yIdx
                  B xWin yWin xSize ySize xBlocks yBlocks) as Hloops.
    assert (Hnx : lo <> lx) by (intros ->; congruence).
    assert (Hny : lo <> ly) by (intros ->; congruence).
    assert (Hni : lo <> li) by (intros ->; congruence).
    assert (Hnj : lo <> lj) by (intros ->; congruence).
    specialize (Hloops (lookup_lt_Some _ _ _ Ho) Hx Hy Hi Hj
                       Hnx Hny Hni Hnj Hxok Hyok Hiok Hjok Hook).
    rewrite (list_insert_id s lo _ Ho) in Hloops.
    assert (Hshape : shape_of lx 0 s = (s, inr B)).
    { eapply shape_of_run; [exact Hx|reflexivity]. }
    destruct Hloops as (a & Hrun & Haok & Ha).
    exists a. split; [|split; [done|exact Ha]].
    unfold bind at 1, ret at 1.
    erewrite bind_run; [|exact Hshape].
    revert Hrun.
    destruct (forallb (outer_pair_ok xBlocks yBlocks xIdx yIdx)
                      (triples B xWin yWin)); intros Hrun.
    + erewrite bind_run; [|exact Hrun]. done.
    + erewrite bind_raise; [|exact Hrun]. done.
  - set (s1 := s ++ [mkArray [xBlocks; yBlocks; xSize; ySize] (Float4 o)]).
    assert (Hfresh : forall l a,
              s !! l = Some a -> s1 !! l = Some a /\ length s <> l).
    { intros l a Hl. split; [by apply lookup_app_l_Some|].
      apply lookup_lt_Some in Hl. lia. }
    pose proof (outer_loops_trace s1 (length s) lx ly li lj o x y xIdx yIdx
                  B xWin yWin xSize ySize xBlocks yBlocks) as Hloops.
    assert (Hlen : length s < length s1)
      by (unfold s1; rewrite length_app; simpl; lia).
    specialize (Hloops Hlen (proj1 (Hfresh _ _ Hx)) (proj1 (Hfresh _ _ Hy))
                       (proj1 (Hfresh _ _ Hi)) (proj1 (Hfresh _ _ Hj))
                       (proj2 (Hfresh _ _ Hx)) (proj2 (Hfresh _ _ Hy))
                       (proj2 (Hfresh _ _ Hi)) (proj2 (Hfresh _ _ Hj))
                       Hxok Hyok Hiok Hjok Hook).
    assert (Hs1 : forall a : tensor4 R,
              <[length s := mkArray [xBlocks; yBlocks; xSize; ySize] (Float4 a)]> s1
              = s ++ [mkArray [xBlocks; yBlocks; xSize; ySize] (Float4 a)]).
    { intros a. unfold s1.
      replace (length s) with (length s + 0) at 1 by lia.
      by rewrite insert_app_r. }
    assert (Hcopy : copy lo s = (s1, inr (length s))).
    { unfold copy. erewrite bind_run; [|apply load_run; exact Ho]. reflexivity. }
    assert (Hshape : shape_of lx 0 s1 = (s1, inr B)).
    { eapply shape_of_run; [exact (proj1 (Hfresh _ _ Hx))|reflexivity]. }
    destruct Hloops as (a & Hrun & Haok & Ha). rewrite !Hs1 in Hrun.
    exists a. split; [|split; [done|exact Ha]].
    erewrite bind_run; [|exact Hcopy].
    erewrite bind_run; [|exact Hshape].
    revert Hrun.
    destruct (forallb (outer_pair_ok xBlocks yBlocks xIdx yIdx)
                      (triples B xWin yWin)); intros Hrun.
    + erewrite bind_run; [|exact Hrun]. done.
    + erewrite bind_raise; [|exact Hrun]. done.
Qed.

(** On a valid input every pass is accepted: [perform] returns the array
    [r] in which every entry of block [(p, q)] is [o]'s entry with the
    outer-product entries of the passes addressing that block added one
    after the other, in loop order.  The scalar [alpha] is part of the
    input and does not occur in the result. *)
Lemma outer_perform_run (self : Op) (s : store R) (lo lx ly li lj la : nat)
    (rest : list nat) (o : tensor4 R) (x y : tensor3 R) (xIdx yIdx : index2)
    (alpha : R) (B xWin yWin xSize ySize xBlocks yBlocks : nat) :
  outer_input s lo lx ly li lj la o x y xIdx yIdx alpha
              B xWin yWin xSize ySize xBlocks yBlocks ->
  exists r : tensor4 R,
    CpuSparseBlockOuter.perform self
      (lo :: lx :: ly :: li :: lj :: la :: rest) s
    = (if inplace self
       then <[lo := mkArray [xBlocks; yBlocks; xSize; ySize] (Float4 r)]> s
       else s ++ [mkArray [xBlocks; yBlocks; xSize; ySize] (Float4 r)],
       inr (if inplace self then lo else length s)) /\
    shape4_ok xBlocks yBlocks xSize ySize r = true /\
    (forall p q m k, p < xBlocks -> q < yBlocks -> m < xSize -> k < ySize ->
       get4 r p q m k
       = accumulate (outer_term x y m k)
           (List.filter (addresses xIdx yIdx p q) (triples B xWin yWin))
           (get4 o p q m k)).
Proof.
  intros [Ho Hx Hy Hi Hj Ha Hook Hxok Hyok Hiok Hjok Hir Hjr].
  destruct (outer_perform_cases self s lo lx ly li lj la rest o x y xIdx yIdx
              B xWin yWin xSize ySize xBlocks yBlocks)
    as (r & Hrun & Hrok & Hr); [by constructor|].
  assert (Hall : forallb (outer_pair_ok xBlocks yBlocks xIdx yIdx)
                         (triples B xWin yWin) = true).
  { apply forallb_elem_of. intros [[b i] j] Ht.
    apply elem_of_triples in Ht as (Hb & Hi' & Hj').
    simpl. apply andb_true_iff.
    split; eapply in_range_wrap; eauto. }
  unfold outer_indices_ok in Hrun. rewrite Hall in Hrun.
  exists r. split; [done|]. split; [done|].
  intros p q m k Hp Hq Hm Hk. rewrite Hr by done.
  rewrite (take_while_all _ _ Hall). f_equal.
  apply filter_agree. intros [[b i] j] Ht.
  apply elem_of_triples in Ht as (Hb & Hi' & Hj'). simpl.
  destruct (in_range_wrap B xBlocks xWin xIdx b i Hiok Hir Hb Hi')
    as (_ & -> & _).
  by destruct (in_range_wrap B yBlocks yWin yIdx b j Hjok Hjr Hb Hj')
    as (_ & -> & _).
Qed.

End OuterPerform.

(** ** Arrays of one shape with equal entries are equal *)

Section Extensionality.

Context {R : Type} {HS : Scalar R}.

Lemma vector_ext (n : nat) (v v' : vector R) :
  length v = n -> length v' = n ->
  (forall k, k < n -> get1 v k = get1 v' k) -> v = v'.
Proof.
  intros Hv Hv' Heq. apply (list_eq_same_length _ _ n); [done|done|].
  intros k a a' Hk Ha Ha'. specialize (Heq k Hk). unfold get1 in Heq.
  by rewrite (nth_lookup_Some _ _ _ _ Ha), (nth_lookup_Some _ _ _ _ Ha') in Heq.
Qed.

Lemma matrix_ext (n0 n1 : nat) (m m' : matrix R) :
  shape2_ok n0 n1 m = true -> shape2_ok n0 n1 m' = true ->
  (forall j k, j < n0 -> k < n1 -> get2 m j k = get2 m' j k) -> m = m'.
Proof.
  intros Hm Hm' Heq.
  apply shape2_ok_spec in Hm as [Hl Hr].
  apply shape2_ok_spec in Hm' as [Hl' Hr'].
  apply (list_eq_same_length _ _ n0); [done|done|].
  intros j row row' Hj Hrow Hrow'.
  apply (vector_ext n1); eauto.
  intros k Hk. specialize (Heq j k Hj Hk).
  by rewrite (get2_lookup _ _ _ _ Hrow), (get2_lookup _ _ _ _ Hrow') in Heq.
Qed.

Lemma tensor3_ext (n0 n1 n2 : nat) (a a' : tensor3 R) :
  shape3_ok n0 n1 n2 a = true -> shape3_ok n0 n1 n2 a' = true ->
  (forall b j k, b < n0 -> j < n1 -> k < n2 -> get3 a b j k = get3 a' b j k) ->
  a = a'.
Proof.
  intros Ha Ha' Heq.
  apply shape3_ok_spec in Ha as [Hl Hr].
  apply shape3_ok_spec in Ha' as [Hl' Hr'].
  apply (list_eq_same_length _ _ n0); [done|done|].
  intros b m m' Hb Hm Hm'.
  apply (matrix_ext n1 n2); eauto.
  intros j k Hj Hk. specialize (Heq b j k Hb Hj Hk).
  by rewrite (get3_lookup _ _ _ _ _ Hm), (get3_lookup _ _ _ _ _ Hm') in Heq.
Qed.

Lemma tensor4_ext (n0 n1 n2 n3 : nat) (a a' : tensor4 R) :
  shape4_ok n0 n1 n2 n3 a = true -> shape4_ok n0 n1 n2 n3 a' = true ->
  (forall p q m k, p < n0 -> q < n1 -> m < n2 -> k < n3 ->
     get4 a p q m k = get4 a' p q m k) ->
  a = a'.
Proof.
  intros Ha Ha' Heq.
  apply shape4_ok_spec in Ha as [Hl Hr].
  apply shape4_ok_spec in Ha' as [Hl' Hr'].
  apply (list_eq_same_length _ _ n0); [done|done|].
  intros p t t' Hp Ht Ht'.
  apply (tensor3_ext n1 n2 n3); eauto.
  intros q m k Hq Hm Hk. specialize (Heq p q m k Hp Hq Hm Hk).
  by rewrite (get4_lookup _ _ _ _ _ _ Ht), (get4_lookup _ _ _ _ _ _ Ht') in Heq.
Qed.

End Extensionality.

(** ** The graph layer *)

Section GraphFacts.

Context (discrete_dtypes : list string).

Lemma gemv_ranks_ok_spec (o W h inputIdx outputIdx : TensorVariable) :
  gemv_ranks_ok o W h inputIdx outputIdx = true <->
  ndim o = 3 /\ ndim W = 4 /\ ndim h = 3
  /\ ndim inputIdx = 2 /\ ndim outputIdx = 2.
Proof.
  unfold gemv_ranks_ok. rewrite !andb_true_iff, !Nat.eqb_eq. tauto.
Qed.

Lemma gemv_make_node_ok (self : Op)
    (o W h inputIdx outputIdx : TensorVariable) :
  gemv_ranks_ok o W h inputIdx outputIdx = true ->
  gemv_dtypes_ok discrete_dtypes inputIdx outputIdx = true ->
  SparseBlockGemv.make_node discrete_dtypes self o W h inputIdx outputIdx
  = inr (mkApply self [o; W; h; inputIdx; outputIdx]
           (mkTensorType (var_dtype o) [false; false; false])).
Proof.
  intros Hr Hd. apply gemv_ranks_ok_spec in Hr as (Ho & HW & Hh & Hi & Hj).
  apply andb_true_iff in Hd as [Hdi Hdj].
  unfold SparseBlockGemv.make_node, as_tensor_variable.
  by rewrite Ho, HW, Hh, Hi, Hj, Hdi, Hdj.
Qed.

(** The gradient rule on a valid node, in full. *)
Lemma gemv_grad_run (self : Op) (o W h inputIdx outputIdx go : TensorVariable) :
  gemv_ranks_ok o W h inputIdx outputIdx = true ->
  gemv_dtypes_ok discrete_dtypes inputIdx outputIdx = true ->
  ndim go = ndim o ->
  SparseBlockGemv.grad discrete_dtypes self
    [o; W; h; inputIdx; outputIdx] [go]
  = inr [GradTensor go;
         GradTensor
           (Output
              (mkApply (mkOp ClsSparseBlockOuter (inplace self))
                 [ZerosLike W; h; go; inputIdx; outputIdx;
                  constant_scalar 1%Q "float32"]
                 (mkTensorType (var_dtype W) [false; false; false; false])));
         GradTensor
           (Output
              (mkApply (mkOp ClsSparseBlockGemv (inplace self))
                 [ZerosLike h; DimShuffle [Dn 1; Dn 0; Dn 3; Dn 2] W;
                  go; outputIdx; inputIdx]
                 (mkTensorType (var_dtype h) [false; false; false])));
         GradUndefined self 3 inputIdx "grad of inputIdx makes no sense";
         GradUndefined self 4 outputIdx "grad of outputIdx makes no sense"].
Proof.
  intros Hr Hd Hgo.
  pose proof Hr as Hr'.
  apply gemv_ranks_ok_spec in Hr' as (Ho & HW & Hh & Hi & Hj).
  pose proof Hd as Hd'. apply andb_true_iff in Hd' as [Hdi Hdj].
  unfold SparseBlockGemv.grad, SparseBlockGemv.call,
    SparseBlockOuter.call, SparseBlockOuter.make_node, as_tensor_variable.
  simpl rbind.
  rewrite (gemv_make_node_ok (mkOp ClsSparseBlockGemv (inplace self))
             (ZerosLike h) (DimShuffle [Dn 1; Dn 0; Dn 3; Dn 2] W)
             go outputIdx inputIdx).
  - simpl. unfold ndim, var_dtype. simpl. fold (ndim W). by rewrite HW.
  - apply gemv_ranks_ok_spec. unfold ndim in *. simpl. lia.
  - unfold gemv_dtypes_ok. by rewrite Hdi, Hdj.
Qed.

End GraphFacts.

(** ** Claims about the graph layer *)

(** C3: for a valid BlockGemv node and an upstream gradient [go] of the
    result's rank, the gradient with respect to [h] is the output of a
    BlockGemv call on [zeros_like(h)], the weight tensor dimshuffled by
    (1, 0, 3, 2) (block axes 0 and 1 swapped, inner axes 2 and 3 swapped),
    [go] as the sparse input, and the index tensors swapped: [outputIdx] as
    input indices, [inputIdx] as output indices. *)
Theorem gemv_grad_wrt_h (discrete_dtypes : list string) (self : Op)
    (o W h inputIdx outputIdx go : TensorVariable) :
  gemv_ranks_ok o W h inputIdx outputIdx = true ->
  gemv_dtypes_ok discrete_dtypes inputIdx outputIdx = true ->
  ndim go = ndim o ->
  exists (Wgrad u3 u4 : GradVariable) (hgrad : TensorVariable) (ty : TensorType),
    SparseBlockGemv.grad discrete_dtypes self
      [o; W; h; inputIdx; outputIdx] [go]
    = inr [GradTensor go; Wgrad; GradTensor hgrad; u3; u4] /\
    SparseBlockGemv.call discrete_dtypes
      (mkOp ClsSparseBlockGemv (inplace self))
      (ZerosLike h) (DimShuffle [Dn 1; Dn 0; Dn 3; Dn 2] W)
      go outputIdx inputIdx
    = inr hgrad /\
    hgrad = Output (mkApply (mkOp ClsSparseBlockGemv (inplace self))
                      [ZerosLike h; DimShuffle [Dn 1; Dn 0; Dn 3; Dn 2] W;
                       go; outputIdx; inputIdx] ty) /\
    broadcastable (var_type (DimShuffle [Dn 1; Dn 0; Dn 3; Dn 2] W))
    = [nth 1 (broadcastable (var_type W)) false;
       nth 0 (broadcastable (var_type W)) false;
       nth 3 (broadcastable (var_type W)) false;
       nth 2 (broadcastable (var_type W)) false].
Proof.
  intros Hr Hd Hgo.
  pose proof (gemv_grad_run discrete_dtypes self o W h inputIdx outputIdx go
                Hr Hd Hgo) as Hgrad.
  apply gemv_ranks_ok_spec in Hr as (Ho & HW & Hh & Hi & Hj).
  apply andb_true_iff in Hd as [Hdi Hdj].
  do 5 eexists. split; [exact Hgrad|]. split; [|split; reflexivity].
  unfold SparseBlockGemv.call.
  rewrite gemv_make_node_ok; [done| |].
  - apply gemv_ranks_ok_spec. unfold ndim in *. simpl. lia.
  - unfold gemv_dtypes_ok. by rewrite Hdi, Hdj.
Qed.

Lemma gemv_grad_wrt_h_witness :
  exists (Wgrad u3 u4 : GradVariable) (hgrad : TensorVariable) (ty : TensorType),
    SparseBlockGemv.grad ex_dtypes (mkOp ClsSparseBlockGemv false)
      [ex_o; ex_W; ex_h; ex_iIdx; ex_oIdx] [ex_go]
    = inr [GradTensor ex_go; Wgrad; GradTensor hgrad; u3; u4] /\
    SparseBlockGemv.call ex_dtypes (mkOp ClsSparseBlockGemv false)
      (ZerosLike ex_h) (DimShuffle [Dn 1; Dn 0; Dn 3; Dn 2] ex_W)
      ex_go ex_oIdx ex_iIdx
    = inr hgrad /\
    hgrad = Output (mkApply (mkOp ClsSparseBlockGemv false)
                      [ZerosLike ex_h; DimShuffle [Dn 1; Dn 0; Dn 3; Dn 2] ex_W;
                       ex_go; ex_oIdx; ex_iIdx] ty) /\
    broadcastable (var_type (DimShuffle [Dn 1; Dn 0; Dn 3; Dn 2] ex_W))
    = [nth 1 (broadcastable (var_type ex_W)) false;
       nth 0 (broadcastable (var_type ex_W)) false;
       nth 3 (broadcastable (var_type ex_W)) false;
       nth 2 (broadcastable (var_type ex_W)) false].
Proof.
  apply (gemv_grad_wrt_h ex_dtypes (mkOp ClsSparseBlockGemv false)
           ex_o ex_W ex_h ex_iIdx ex_oIdx ex_go); reflexivity.
Defined.

(** C4: for a valid BlockGemv node and an upstream gradient [go] of the
    result's rank, the gradient with respect to [W] is the output of one
    BlockOuterAccumulate call on [zeros_like(W)] with [h] and [go] as the two
    vector sets and [inputIdx], [outputIdx] as the two index tensors, and
    the gradient with respect to [o] is [go] itself. *)
Theorem gemv_grad_wrt_W_and_o (discrete_dtypes : list string) (self : Op)
    (o W h inputIdx outputIdx go : TensorVariable) :
  gemv_ranks_ok o W h inputIdx outputIdx = true ->
  gemv_dtypes_ok discrete_dtypes inputIdx outputIdx = true ->
  ndim go = ndim o ->
  exists (hgrad u3 u4 : GradVariable) (Wgrad : TensorVariable)
         (alpha : TensorVariable) (ty : TensorType),
    SparseBlockGemv.grad discrete_dtypes self
      [o; W; h; inputIdx; outputIdx] [go]
    = inr [GradTensor go; GradTensor Wgrad; hgrad; u3; u4] /\
    SparseBlockOuter.call (mkOp ClsSparseBlockOuter (inplace self))
      (ZerosLike W) h go inputIdx outputIdx None
    = inr Wgrad /\
    Wgrad = Output (mkApply (mkOp ClsSparseBlockOuter (inplace self))
                      [ZerosLike W; h; go; inputIdx; outputIdx; alpha] ty).
Proof.
  intros Hr Hd Hgo.
  pose proof (gemv_grad_run discrete_dtypes self o W h inputIdx outputIdx go
                Hr Hd Hgo) as Hgrad.
  apply gemv_ranks_ok_spec in Hr as (Ho & HW & Hh & Hi & Hj).
  do 6 eexists. split; [exact Hgrad|]. split; [|reflexivity].
  unfold SparseBlockOuter.call, SparseBlockOuter.make_node, as_tensor_variable.
  unfold ndim, var_dtype in *. simpl. by rewrite HW.
Qed.

Lemma gemv_grad_wrt_W_and_o_witness :
  exists (hgrad u3 u4 : GradVariable) (Wgrad : TensorVariable)
         (alpha : TensorVariable) (ty : TensorType),
    SparseBlockGemv.grad ex_dtypes (mkOp ClsSparseBlockGemv true)
      [ex_o; ex_W; ex_h; ex_iIdx; ex_oIdx] [ex_go]
    = inr [GradTensor ex_go; GradTensor Wgrad; hgrad; u3; u4] /\
    SparseBlockOuter.call (mkOp ClsSparseBlockOuter true)
      (ZerosLike ex_W) ex_h ex_go ex_iIdx ex_oIdx None
    = inr Wgrad /\
    Wgrad = Output (mkApply (mkOp ClsSparseBlockOuter true)
                      [ZerosLike ex_W; ex_h; ex_go; ex_iIdx; ex_oIdx; alpha] ty).
Proof.
  apply (gemv_grad_wrt_W_and_o ex_dtypes (mkOp ClsSparseBlockGemv true)
           ex_o ex_W ex_h ex_iIdx ex_oIdx ex_go); reflexivity.
Defined.

(** C6, as stated, fails for BlockOuterAccumulate: its [make_node] accepts
    an accumulator of rank 2, vector sets of rank 1 and 4, and index tensors
    of rank 1 and 3 with a floating dtype. *)
Lemma outer_make_node_accepts_bad_input :
  ndim bad_o <> 4 /\ ndim bad_x <> 3 /\ ndim bad_y <> 3 /\
  ndim bad_xIdx <> 2 /\ ndim bad_yIdx <> 2 /\
  dtype_in (var_dtype bad_xIdx) ex_dtypes = false /\
  dtype_in (var_dtype bad_yIdx) ex_dtypes = false /\
  exists node,
    SparseBlockOuter.make_node (mkOp ClsSparseBlockOuter true)
      bad_o bad_x bad_y bad_xIdx bad_yIdx None
    = inr node.
Proof.
  repeat split; try (vm_compute; discriminate); try reflexivity.
  eexists. reflexivity.
Qed.

(** C6, amended: BlockGemv's [make_node] checks the ranks of [o], [W], [h],
    [inputIdx] and [outputIdx] in that order and raises, for the first that
    is wrong, the [TypeError] whose message names that argument; when the
    ranks are right and an index tensor has a non-integral dtype it fails
    an assertion.  In every such case no node is built, and [make_node]
    works on symbolic variables only, so no storage is touched.
    BlockOuterAccumulate's [make_node] validates nothing and always builds
    its node. *)
Theorem make_node_validation (discrete_dtypes : list string) (self : Op)
    (o W h inputIdx outputIdx : TensorVariable) :
  (ndim o <> 3 ->
   SparseBlockGemv.make_node discrete_dtypes self o W h inputIdx outputIdx
   = inl (TypeError "The output o must be a 2D tensor")) /\
  (ndim o = 3 -> ndim W <> 4 ->
   SparseBlockGemv.make_node discrete_dtypes self o W h inputIdx outputIdx
   = inl (TypeError "The weight matrix W must be a 4D tensor")) /\
  (ndim o = 3 -> ndim W = 4 -> ndim h <> 3 ->
   SparseBlockGemv.make_node discrete_dtypes self o W h inputIdx outputIdx
   = inl (TypeError "The input h must be a 3D tensor")) /\
  (ndim o = 3 -> ndim W = 4 -> ndim h = 3 -> ndim inputIdx <> 2 ->
   SparseBlockGemv.make_node discrete_dtypes self o W h inputIdx outputIdx
   = inl (TypeError "The input indices inputIdx must be a 2D tensor")) /\
  (ndim o = 3 -> ndim W = 4 -> ndim h = 3 -> ndim inputIdx = 2 ->
   ndim outputIdx <> 2 ->
   SparseBlockGemv.make_node discrete_dtypes self o W h inputIdx outputIdx
   = inl (TypeError "The output indices outputIdx must be a 2D tensor")) /\
  (gemv_ranks_ok o W h inputIdx outputIdx = true ->
   gemv_dtypes_ok discrete_dtypes inputIdx outputIdx = false ->
   SparseBlockGemv.make_node discrete_dtypes self o W h inputIdx outputIdx
   = inl AssertionError) /\
  (forall (x y xIdx yIdx : TensorVariable) (alpha : option TensorVariable),
   exists node,
     SparseBlockOuter.make_node self o x y xIdx yIdx alpha = inr node).
Proof.
  unfold SparseBlockGemv.make_node, as_tensor_variable.
  repeat split.
  - intros Ho. apply Nat.eqb_neq in Ho. by rewrite Ho.
  - intros Ho HW. apply Nat.eqb_neq in HW. by rewrite Ho, HW.
  - intros Ho HW Hh. apply Nat.eqb_neq in Hh. by rewrite Ho, HW, Hh.
  - intros Ho HW Hh Hi. apply Nat.eqb_neq in Hi. by rewrite Ho, HW, Hh, Hi.
  - intros Ho HW Hh Hi Hj. apply Nat.eqb_neq in Hj.
    by rewrite Ho, HW, Hh, Hi, Hj.
  - intros Hr Hd. apply gemv_ranks_ok_spec in Hr as (Ho & HW & Hh & Hi & Hj).
    rewrite Ho, HW, Hh, Hi, Hj. simpl.
    unfold gemv_dtypes_ok in Hd.
    destruct (dtype_in (var_dtype inputIdx) discrete_dtypes); [|done].
    simpl in Hd. by rewrite Hd.
  - intros x y xIdx yIdx alpha. eexists. reflexivity.
Qed.

Lemma make_node_validation_witness :
  SparseBlockGemv.make_node ex_dtypes (mkOp ClsSparseBlockGemv true)
    bad_o ex_W ex_h ex_iIdx ex_oIdx
  = inl (TypeError "The output o must be a 2D tensor") /\
  SparseBlockGemv.make_node ex_dtypes (mkOp ClsSparseBlockGemv true)
    ex_o ex_h ex_h ex_iIdx ex_oIdx
  = inl (TypeError "The weight matrix W must be a 4D tensor") /\
  SparseBlockGemv.make_node ex_dtypes (mkOp ClsSparseBlockGemv true)
    ex_o ex_W ex_b ex_iIdx ex_oIdx
  = inl (TypeError "The input h must be a 3D tensor") /\
  SparseBlockGemv.make_node ex_dtypes (mkOp ClsSparseBlockGemv true)
    ex_o ex_W ex_h ex_h ex_oIdx
  = inl (TypeError "The input indices inputIdx must be a 2D tensor") /\
  SparseBlockGemv.make_node ex_dtypes (mkOp ClsSparseBlockGemv true)
    ex_o ex_W ex_h ex_iIdx ex_h
  = inl (TypeError "The output indices outputIdx must be a 2D tensor") /\
  SparseBlockGemv.make_node ex_dtypes (mkOp ClsSparseBlockGemv true)
    ex_o ex_W ex_h ex_iIdx float_oIdx
  = inl AssertionError.
Proof.
  split; [|split; [|split; [|split; [|split]]]].
  - apply (make_node_validation ex_dtypes (mkOp ClsSparseBlockGemv true)
             bad_o ex_W ex_h ex_iIdx ex_oIdx). vm_compute. lia.
  - apply (make_node_validation ex_dtypes (mkOp ClsSparseBlockGemv true)
             ex_o ex_h ex_h ex_iIdx ex_oIdx); [reflexivity|vm_compute; lia].
  - apply (make_node_validation ex_dtypes (mkOp ClsSparseBlockGemv true)
             ex_o ex_W ex_b ex_iIdx ex_oIdx);
      [reflexivity|reflexivity|vm_compute; lia].
  - apply (make_node_validation ex_dtypes (mkOp ClsSparseBlockGemv true)
             ex_o ex_W ex_h ex_h ex_oIdx);
      [reflexivity|reflexivity|reflexivity|vm_compute; lia].
  - apply (make_node_validation ex_dtypes (mkOp ClsSparseBlockGemv true)
             ex_o ex_W ex_h ex_iIdx ex_h);
      [reflexivity|reflexivity|reflexivity|reflexivity|vm_compute; lia].
  - apply (make_node_validation ex_dtypes (mkOp ClsSparseBlockGemv true)
             ex_o ex_W ex_h ex_iIdx float_oIdx); reflexivity.
Defined.

(** C9: asking for the gradient of BlockOuterAccumulate raises
    [NotImplementedError], whatever the operator instance, the inputs and
    the output gradients; no list of gradients is ever returned. *)
Theorem outer_grad_not_implemented (self : Op)
    (inputs output_gradients : list TensorVariable) :
  SparseBlockOuter.grad self inputs output_gradients
  = inl (NotImplementedError "SparseBlockOuter has no gradient implemented") /\
  forall gs : list GradVariable,
    SparseBlockOuter.grad self inputs output_gradients <> inr gs.
Proof.
  split.
  - reflexivity.
  - intros gs Hgs. unfold SparseBlockOuter.grad in Hgs. discriminate.
Qed.

(** C10: without an [alpha] argument, the sixth input of the node is the
    rank-0 constant 1.0 of dtype float32, whatever the dtypes of [o], [x]
    and [y]. *)
Theorem outer_default_alpha (self : Op) (o x y xIdx yIdx : TensorVariable) :
  exists node,
    SparseBlockOuter.make_node self o x y xIdx yIdx None = inr node /\
    node_inputs node
    = [o; x; y; xIdx; yIdx; Constant (mkTensorType "float32" []) 1%Q].
Proof. eexists. split; reflexivity. Qed.

(** ** Gathering bias rows *)

Section Take.

Context {R : Type} {HS : Scalar R}.

Lemma rmapM_fmap {A C : Type} (f : A -> result C) (g : A -> C) (l : list A) :
  (forall a, a ∈ l -> f a = inr (g a)) -> rmapM f l = inr (g <$> l).
Proof.
  induction l as [|a l IH]; intros Hf; [done|].
  simpl. rewrite Hf by apply list_elem_of_here. simpl.
  rewrite IH; [done|]. intros a' Ha'. apply Hf. by apply list_elem_of_further.
Qed.

(** With in-range indices the gather succeeds, has one row of [bias] per
    index entry, and row [(b, j)] is the bias row of block
    [outputIdx[b, j]]. *)
Lemma numpy_take0_spec (bias : matrix R) (idx : index2)
    (B oWin oBlocks oSize : nat) :
  shape2_ok oBlocks oSize bias = true ->
  shape2_ok B oWin idx = true ->
  in_range oBlocks idx = true ->
  exists o : tensor3 R,
    numpy_take0 bias idx = inr o /\
    shape3_ok B oWin oSize o = true /\
    forall b j k, b < B -> j < oWin ->
      get3 o b j k = get2 bias (block_of idx b j) k.
Proof.
  intros Hbias Hidx Hrange.
  pose proof Hbias as Hbias'. apply shape2_ok_spec in Hbias' as [Hblen Hbrows].
  pose proof Hidx as Hidx'. apply shape2_ok_spec in Hidx' as [Hilen Hirows].
  set (g := fun z : Z => nth (Z.to_nat z) bias []).
  assert (Hinner : forall row, row ∈ idx ->
            rmapM (fun z => do p <- wrap_index (length bias) z; getitem bias p) row
            = inr (g <$> row)).
  { intros row Hrow. apply rmapM_fmap. intros z Hz.
    apply list_elem_of_lookup in Hrow as [b Hb].
    apply list_elem_of_lookup in Hz as [j Hj].
    pose proof (in_range_lookup _ _ _ _ _ _ Hrange Hb Hj) as Hzr.
    rewrite wrap_index_in_range by lia. simpl. unfold getitem, g.
    destruct (lookup_lt_is_Some_2 bias (Z.to_nat z)) as [v Hv]; [lia|].
    by rewrite Hv, (nth_lookup_Some _ _ _ _ Hv). }
  exists ((fun row : list Z => g <$> row) <$> idx). split; [|split].
  - unfold numpy_take0. by apply rmapM_fmap.
  - apply shape3_ok_spec. split; [by rewrite length_fmap|].
    intros b m Hm. rewrite list_lookup_fmap in Hm.
    destruct (idx !! b) as [row|] eqn:Hrow; [|done].
    simpl in Hm. injection Hm as <-.
    apply shape2_ok_spec. split; [rewrite length_fmap; eauto|].
    intros j v Hv. rewrite list_lookup_fmap in Hv.
    destruct (row !! j) as [z|] eqn:Hz; [|done].
    simpl in Hv. injection Hv as <-.
    pose proof (in_range_lookup _ _ _ _ _ _ Hrange Hrow Hz) as Hzr.
    destruct (lookup_lt_is_Some_2 bias (Z.to_nat z)) as [v Hv]; [lia|].
    unfold g. rewrite (nth_lookup_Some _ _ _ _ Hv). eauto.
  - intros b j k Hb Hj.
    destruct (idx_lookup B oBlocks oWin idx b j Hidx Hrange Hb Hj)
      as (row & Hrow & Hz & _).
    rewrite (get3_lookup _ b j k (g <$> row))
      by (by rewrite list_lookup_fmap, Hrow).
    rewrite (get2_lookup _ j k (g (geti idx b j)))
      by (by rewrite list_lookup_fmap, Hz).
    reflexivity.
Qed.

End Take.

(** ** The kernels behind the gradient rule

    What the two nodes built by [SparseBlockGemv.grad] compute when run by
    the Cpu kernels on zeros, the dimshuffled weights and the upstream
    gradient. *)

Section GradientKernels.

Context {R : Type} {HS : Scalar R}.

Lemma shape3_ok_zeros (n0 n1 n2 : nat) :
  shape3_ok n0 n1 n2 (zeros3 (R := R) n0 n1 n2) = true.
Proof.
  apply shape3_ok_spec. split; [apply length_replicate|].
  intros b m Hm. apply lookup_replicate in Hm as [-> _].
  apply shape2_ok_spec. split; [apply length_replicate|].
  intros j row Hrow. apply lookup_replicate in Hrow as [-> _].
  apply length_replicate.
Qed.

Lemma get3_zeros (n0 n1 n2 b j k : nat) :
  b < n0 -> j < n1 -> k < n2 -> get3 (zeros3 (R := R) n0 n1 n2) b j k = rzero.
Proof.
  intros Hb Hj Hk. unfold zeros3.
  rewrite (get3_lookup _ _ _ _ (replicate n1 (replicate n2 rzero)))
    by (by apply lookup_replicate_2).
  rewrite (get2_lookup _ _ _ (replicate n2 rzero))
    by (by apply lookup_replicate_2).
  unfold get1. by rewrite (nth_lookup_Some _ _ _ rzero (lookup_replicate_2 n2 rzero k Hk)).
Qed.

Lemma shape4_ok_zeros (n0 n1 n2 n3 : nat) :
  shape4_ok n0 n1 n2 n3 (zeros4 (R := R) n0 n1 n2 n3) = true.
Proof.
  apply shape4_ok_spec. split; [apply length_replicate|].
  intros p t Ht. apply lookup_replicate in Ht as [-> _].
  apply shape3_ok_zeros.
Qed.

Lemma get4_zeros (n0 n1 n2 n3 p q m k : nat) :
  p < n0 -> q < n1 -> m < n2 -> k < n3 ->
  get4 (zeros4 (R := R) n0 n1 n2 n3) p q m k = rzero.
Proof.
  intros Hp Hq Hm Hk. unfold zeros4.
  rewrite (get4_lookup _ _ _ _ _ (zeros3 n1 n2 n3))
    by (by apply lookup_replicate_2).
  by apply get3_zeros.
Qed.

Lemma lookup_fmap_seq {A : Type} (f : nat -> A) (n i : nat) :
  i < n -> (f <$> seq 0 n) !! i = Some (f i).
Proof. intros Hi. by rewrite list_lookup_fmap, lookup_seq_lt. Qed.

Lemma lookup_fmap_seq_inv {A : Type} (f : nat -> A) (n i : nat) (a : A) :
  (f <$> seq 0 n) !! i = Some a -> i < n /\ a = f i.
Proof.
  intros Hi. rewrite list_lookup_fmap in Hi.
  destruct (seq 0 n !! i) as [i'|] eqn:Hs; [|done].
  apply lookup_seq in Hs as [-> Hlt]. simpl in Hi. injection Hi as <-. done.
Qed.

Lemma shape4_ok_dimshuffle (n0 n1 n2 n3 : nat) (W : tensor4 R) :
  shape4_ok n1 n0 n3 n2 (dimshuffle_1032 n0 n1 n2 n3 W) = true.
Proof.
  unfold dimshuffle_1032.
  apply shape4_ok_spec. split; [by rewrite length_fmap, length_seq|].
  intros q t Ht. apply lookup_fmap_seq_inv in Ht as [_ ->].
  apply shape3_ok_spec. split; [by rewrite length_fmap, length_seq|].
  intros p m Hm. apply lookup_fmap_seq_inv in Hm as [_ ->].
  apply shape2_ok_spec. split; [by rewrite length_fmap, length_seq|].
  intros k row Hrow. apply lookup_fmap_seq_inv in Hrow as [_ ->].
  by rewrite length_fmap, length_seq.
Qed.

Lemma get4_dimshuffle (n0 n1 n2 n3 : nat) (W : tensor4 R) (p q m k : nat) :
  p < n0 -> q < n1 -> m < n2 -> k < n3 ->
  get4 (dimshuffle_1032 n0 n1 n2 n3 W) q p k m = get4 W p q m k.
Proof.
  intros Hp Hq Hm Hk. unfold dimshuffle_1032.
  erewrite get4_lookup by (by apply lookup_fmap_seq).
  erewrite get3_lookup by (by apply lookup_fmap_seq).
  erewrite get2_lookup by (by apply lookup_fmap_seq).
  unfold get1. by erewrite nth_lookup_Some by (by apply lookup_fmap_seq).
Qed.

(** X10: the gemv kernel run on the arguments of the gradient node for [h]
    (zeros of [h]'s shape, the weights dimshuffled by (1, 0, 3, 2), the
    upstream gradient [go], the index arrays swapped) returns at
    [(b, i, m)] the sum over the output window and the output block size of
    [go[b, j, k] * W[inputIdx[b, i], outputIdx[b, j], m, k]]. *)
Lemma gemv_grad_h_kernel (self : Op) (s : store R) (lz lW lgo lj li : nat)
    (rest : list nat) (W : tensor4 R) (go : tensor3 R) (iIdx oIdx : index2)
    (B oWin oSize iWin iSize iBlocks oBlocks : nat) :
  s !! lz = Some (mkArray [B; iWin; iSize] (Float3 (zeros3 B iWin iSize))) ->
  s !! lW = Some (mkArray [oBlocks; iBlocks; oSize; iSize]
                    (Float4 (dimshuffle_1032 iBlocks oBlocks iSize oSize W))) ->
  s !! lgo = Some (mkArray [B; oWin; oSize] (Float3 go)) ->
  s !! lj = Some (mkArray [B; oWin] (Int2 oIdx)) ->
  s !! li = Some (mkArray [B; iWin] (Int2 iIdx)) ->
  shape3_ok B oWin oSize go = true ->
  shape2_ok B iWin iIdx = true -> shape2_ok B oWin oIdx = true ->
  in_range iBlocks iIdx = true -> in_range oBlocks oIdx = true ->
  (inplace self = true -> lz <> lgo) ->
  exists (s' : store R) (l : nat) (r : tensor3 R),
    CpuSparseBlockGemv.perform self (lz :: lW :: lgo :: lj :: li :: rest) s
    = (s', inr l) /\
    s' !! l = Some (mkArray [B; iWin; iSize] (Float3 r)) /\
    forall b i m, b < B -> i < iWin -> m < iSize ->
      get3 r b i m
      = sum_n oWin (fun j =>
          sum_n oSize (fun k =>
            rmul (get3 go b j k)
                 (get4 W (block_of iIdx b i) (block_of oIdx b j) m k))).
Proof.
  intros Hz HW Hgo Hj Hi Hgook Hiok Hjok Hir Hjr Halias.
  destruct (gemv_perform_run self s lz lW lgo lj li rest
              (zeros3 B iWin iSize)
              (dimshuffle_1032 iBlocks oBlocks iSize oSize W) go oIdx iIdx
              B iWin iSize oWin oSize oBlocks iBlocks)
    as (r & Hrun & Hrok & Hr); [|done|].
  { constructor; try done; [apply shape3_ok_zeros|apply shape4_ok_dimshuffle]. }
  eexists _, _, r. split; [exact Hrun|]. split.
  - destruct (inplace self).
    + apply list_lookup_insert_eq. by eapply lookup_lt_Some.
    + by apply list_lookup_middle.
  - intros b i m Hb Hi' Hm. rewrite Hr by done.
    rewrite get3_zeros by done. rewrite accumulate_seq_zero.
    destruct (idx_lookup B iBlocks iWin iIdx b i Hiok Hir Hb Hi')
      as (_ & _ & _ & Hpi).
    apply sum_n_ext. intros j Hj'. unfold dot_entry.
    destruct (idx_lookup B oBlocks oWin oIdx b j Hjok Hjr Hb Hj')
      as (_ & _ & _ & Hqj).
    apply sum_n_ext. intros k Hk.
    rewrite get4_dimshuffle; [done| | |done|done]; unfold block_of; lia.
Qed.

(** X11: the outer-product kernel run on the arguments of the gradient
    node for [W] (zeros of [W]'s shape, [h], the upstream gradient [go],
    the two index arrays) returns at entry [(m, k)] of block [(p, q)] the
    products [h[b, i, m] * go[b, j, k]] of the passes [(b, i, j)] whose
    indices name that block, added onto zero one after the other in loop
    order. *)
Lemma gemv_grad_W_kernel (self : Op) (s : store R) (lz lh lgo li lj la : nat)
    (rest : list nat) (h go : tensor3 R) (iIdx oIdx : index2) (alpha : R)
    (B oWin oSize iWin iSize iBlocks oBlocks : nat) :
  outer_input s lz lh lgo li lj la
    (zeros4 iBlocks oBlocks iSize oSize) h go iIdx oIdx alpha
    B iWin oWin iSize oSize iBlocks oBlocks ->
  exists (s' : store R) (l : nat) (r : tensor4 R),
    CpuSparseBlockOuter.perform self
      (lz :: lh :: lgo :: li :: lj :: la :: rest) s
    = (s', inr l) /\
    s' !! l = Some (mkArray [iBlocks; oBlocks; iSize; oSize] (Float4 r)) /\
    forall p q m k, p < iBlocks -> q < oBlocks -> m < iSize -> k < oSize ->
      get4 r p q m k
      = accumulate (fun t : nat * nat * nat =>
                      let '(b, i, j) := t in
                      rmul (get3 h b i m) (get3 go b j k))
          (List.filter (addresses iIdx oIdx p q) (triples B iWin oWin))
          rzero.
Proof.
  intros Hin.
  destruct (outer_perform_run self s lz lh lgo li lj la rest _ h go iIdx oIdx
              alpha B iWin oWin iSize oSize iBlocks oBlocks Hin)
    as (r & Hrun & Hrok & Hr).
  destruct Hin as [Ho _ _ _ _ _ _ _ _ _ _ _ _].
  eexists _, _, r. split; [exact Hrun|]. split.
  - destruct (inplace self).
    + apply list_lookup_insert_eq. by eapply lookup_lt_Some.
    + by apply list_lookup_middle.
  - intros p q m k Hp Hq Hm Hk. rewrite Hr by done.
    by rewrite get4_zeros by done.
Qed.

End GradientKernels.

Lemma gemv_grad_h_kernel_witness :
  exists (s' : store Z) (l : nat) (r : tensor3 Z),
    CpuSparseBlockGemv.perform (mkOp ClsCpuSparseBlockGemv true)
      [0; 1; 2; 3; 4] grad_h_store
    = (s', inr l) /\
    s' !! l = Some (mkArray [1; 2; 3] (Float3 r)) /\
    forall b i m, b < 1 -> i < 2 -> m < 3 ->
      get3 r b i m
      = sum_n 2 (fun j =>
          sum_n 2 (fun k =>
            rmul (get3 ex_gemv_go b j k)
                 (get4 ex_gemv_W (block_of ex_gemv_iIdx b i)
                                 (block_of ex_gemv_oIdx b j) m k))).
Proof.
  apply (gemv_grad_h_kernel (mkOp ClsCpuSparseBlockGemv true)
           grad_h_store 0 1 2 3 4 [] ex_gemv_W ex_gemv_go
           ex_gemv_iIdx ex_gemv_oIdx 1 2 2 2 3 2 2);
    try reflexivity.
  intros _. lia.
Defined.

Lemma gemv_grad_W_kernel_witness :
  exists (s' : store Z) (l : nat) (r : tensor4 Z),
    CpuSparseBlockOuter.perform (mkOp ClsCpuSparseBlockOuter true)
      [0; 1; 2; 3; 4; 5] grad_W_store
    = (s', inr l) /\
    s' !! l = Some (mkArray [2; 2; 3; 2] (Float4 r)) /\
    forall p q m k, p < 2 -> q < 2 -> m < 3 -> k < 2 ->
      get4 r p q m k
      = accumulate (fun t : nat * nat * nat =>
                      let '(b, i, j) := t in
                      rmul (get3 ex_gemv_h b i m) (get3 ex_gemv_go b j k))
          (List.filter (addresses ex_gemv_iIdx ex_gemv_oIdx p q)
                       (triples 1 2 2))
          rzero.
Proof.
  apply (gemv_grad_W_kernel (mkOp ClsCpuSparseBlockOuter true)
           grad_W_store 0 1 2 3 4 5 [] ex_gemv_h ex_gemv_go
           ex_gemv_iIdx ex_gemv_oIdx 1%Z 1 2 2 2 3 2 2).
  constructor; reflexivity.
Defined.

(** ** Claims about the kernels *)

(** C1: on every valid BlockGemv input (in place: with [o] not the object
    passed as [h]), [perform] returns an array [r] of [o]'s shape in which
    [r[b, j, k]] is [o[b, j, k]] plus the sum over all input-window
    positions [i] of entry [k] of the product of the row vector
    [h[b, i, :]] with the sub-matrix
    [W[inputIdx[b, i], outputIdx[b, j], :, :]].  The additions are made in
    the loop's order, [((o + d 0) + d 1) + ...]; entry [k] of a product is
    the sum over [m] of [h[b, i, m] * W[.., .., m, k]]. *)
Theorem gemv_perform_correct {R : Type} {HS : Scalar R}
    (self : Op) (s : store R) (lo lW lh li lj : nat) (rest : list nat)
    (o : tensor3 R) (W : tensor4 R) (h : tensor3 R) (iIdx oIdx : index2)
    (B oWin oSize iWin iSize iBlocks oBlocks : nat) :
  gemv_input s lo lW lh li lj o W h iIdx oIdx
             B oWin oSize iWin iSize iBlocks oBlocks ->
  (inplace self = true -> lo <> lh) ->
  exists (s' : store R) (l : nat) (r : tensor3 R),
    CpuSparseBlockGemv.perform self (lo :: lW :: lh :: li :: lj :: rest) s
    = (s', inr l) /\
    s' !! l = Some (mkArray [B; oWin; oSize] (Float3 r)) /\
    shape3_ok B oWin oSize r = true /\
    forall b j k, b < B -> j < oWin -> k < oSize ->
      get3 r b j k
      = accumulate
          (fun i =>
             sum_n iSize (fun m =>
               rmul (get3 h b i m)
                    (get4 W (block_of iIdx b i) (block_of oIdx b j) m k)))
          (seq 0 iWin) (get3 o b j k).
Proof.
  intros Hin Halias.
  destruct (gemv_perform_run self s lo lW lh li lj rest o W h iIdx oIdx
              B oWin oSize iWin iSize iBlocks oBlocks Hin Halias)
    as (r & Hrun & Hrok & Hr).
  destruct Hin as [Ho _ _ _ _ _ _ _ _ _ _ _].
  eexists _, _, r. split; [exact Hrun|]. split; [|split; [done|exact Hr]].
  destruct (inplace self).
  - apply list_lookup_insert_eq. by eapply lookup_lt_Some.
  - by apply list_lookup_middle.
Qed.

Lemma gemv_perform_correct_witness :
  exists (s' : store Z) (l : nat) (r : tensor3 Z),
    CpuSparseBlockGemv.perform (mkOp ClsCpuSparseBlockGemv true)
      [0; 1; 2; 3; 4] ex_gemv_store
    = (s', inr l) /\
    s' !! l = Some (mkArray [1; 2; 2] (Float3 r)) /\
    shape3_ok 1 2 2 r = true /\
    forall b j k, b < 1 -> j < 2 -> k < 2 ->
      get3 r b j k
      = accumulate
          (fun i =>
             sum_n 3 (fun m =>
               rmul (get3 ex_gemv_h b i m)
                    (get4 ex_gemv_W (block_of ex_gemv_iIdx b i)
                                    (block_of ex_gemv_oIdx b j) m k)))
          (seq 0 2) (get3 ex_gemv_o b j k).
Proof.
  apply (gemv_perform_correct (mkOp ClsCpuSparseBlockGemv true)
           ex_gemv_store 0 1 2 3 4 [] ex_gemv_o ex_gemv_W ex_gemv_h
           ex_gemv_iIdx ex_gemv_oIdx 1 2 2 2 3 2 2).
  - constructor; reflexivity.
  - intros _. lia.
Defined.

(** Why the in-place results exclude aliasing: with [h] the very object [o],
    the in-place kernel reads rows it has already updated and returns other
    values than the copying kernel. *)
Example gemv_inplace_aliased :
  exists s1 s2,
    CpuSparseBlockGemv.perform (mkOp ClsCpuSparseBlockGemv true)
      [0; 1; 0; 2; 3] alias_store = (s1, inr 0) /\
    s1 !! 0 = Some (mkArray [1; 2; 2] (Float3 [[[6; 8]; [51; 36]]]%Z)) /\
    CpuSparseBlockGemv.perform (mkOp ClsCpuSparseBlockGemv false)
      [0; 1; 0; 2; 3] alias_store = (s2, inr 4) /\
    s2 !! 4 = Some (mkArray [1; 2; 2] (Float3 [[[6; 8]; [12; 14]]]%Z)).
Proof. do 2 eexists. repeat split; vm_compute; reflexivity. Qed.

(** C2 fails on the code: with [o = 0], [x = y = 1] and [alpha = 2], the
    kernel returns 1 at the only entry, where the claim requires
    [0 + 2 * (1 * 1) = 2]. *)
Theorem outer_perform_drops_alpha :
  CpuSparseBlockOuter.perform (mkOp ClsCpuSparseBlockOuter false)
    [0; 1; 2; 3; 4; 5] unit_outer_store
  = (unit_outer_store ++ [mkArray [1; 1; 1; 1] (Float4 [[[[1]]]]%Z)], inr 6) /\
  unit_outer_store !! 5 = Some (mkArray [] (Float0 2%Z)) /\
  radd 0%Z (rmul 2%Z (rmul 1%Z 1%Z)) = 2%Z.
Proof. repeat split. Qed.

(** C5: when two distinct passes [(b1, i1, j1)] and [(b2, i2, j2)] have
    the same destination block [(p, q)], both are among the passes that
    address the block, and every entry of the result block is [o]'s entry
    to which the outer-product entries of those passes have been added one
    after the other in loop order: first those of the passes [before], then
    that of the earlier of the two, then those [between], then that of the
    later of the two, then those [after].  Neither contribution is
    overwritten or dropped. *)
Theorem outer_collisions_accumulate
    {R : Type} {HS : Scalar R}
    (self : Op) (s : store R) (lo lx ly li lj la : nat) (rest : list nat)
    (o : tensor4 R) (x y : tensor3 R) (xIdx yIdx : index2) (alpha : R)
    (B xWin yWin xSize ySize xBlocks yBlocks : nat)
    (b1 i1 j1 b2 i2 j2 p q : nat) :
  outer_input s lo lx ly li lj la o x y xIdx yIdx alpha
              B xWin yWin xSize ySize xBlocks yBlocks ->
  b1 < B -> i1 < xWin -> j1 < yWin ->
  b2 < B -> i2 < xWin -> j2 < yWin ->
  (b1, i1, j1) <> (b2, i2, j2) ->
  block_of xIdx b1 i1 = p -> block_of yIdx b1 j1 = q ->
  block_of xIdx b2 i2 = p -> block_of yIdx b2 j2 = q ->
  exists (s' : store R) (l : nat) (r : tensor4 R)
         (before between after : list (nat * nat * nat))
         (ta tb : nat * nat * nat),
    CpuSparseBlockOuter.perform self
      (lo :: lx :: ly :: li :: lj :: la :: rest) s
    = (s', inr l) /\
    s' !! l = Some (mkArray [xBlocks; yBlocks; xSize; ySize] (Float4 r)) /\
    (ta = (b1, i1, j1) /\ tb = (b2, i2, j2) \/
     ta = (b2, i2, j2) /\ tb = (b1, i1, j1)) /\
    List.filter (addresses xIdx yIdx p q) (triples B xWin yWin)
    = before ++ ta :: between ++ tb :: after /\
    forall m k, m < xSize -> k < ySize ->
      get4 r p q m k
      = accumulate (outer_term x y m k) after
          (radd
             (accumulate (outer_term x y m k) between
                (radd
                   (accumulate (outer_term x y m k) before (get4 o p q m k))
                   (outer_term x y m k ta)))
             (outer_term x y m k tb)).
Proof.
  intros Hin Hb1 Hi1 Hj1 Hb2 Hi2 Hj2 Hne Hp1 Hq1 Hp2 Hq2.
  destruct (outer_perform_run self s lo lx ly li lj la rest o x y xIdx yIdx
              alpha B xWin yWin xSize ySize xBlocks yBlocks Hin)
    as (r & Hrun & Hrok & Hr).
  destruct (two_elems_split
              (List.filter (addresses xIdx yIdx p q) (triples B xWin yWin))
              (b1, i1, j1) (b2, i2, j2))
    as (before & between & after & ta & tb & Hwho & Hsplit); [| |done|].
  { apply elem_of_filter_bool. split; [by apply elem_of_triples|].
    simpl. by rewrite Hp1, Hq1, !Nat.eqb_refl. }
  { apply elem_of_filter_bool. split; [by apply elem_of_triples|].
    simpl. by rewrite Hp2, Hq2, !Nat.eqb_refl. }
  destruct Hin as [Ho Hx Hy Hi Hj Ha Hook Hxok Hyok Hiok Hjok Hir Hjr].
  destruct (in_range_wrap B xBlocks xWin xIdx b1 i1 Hiok Hir Hb1 Hi1)
    as (_ & _ & Hp).
  destruct (in_range_wrap B yBlocks yWin yIdx b1 j1 Hjok Hjr Hb1 Hj1)
    as (_ & _ & Hq).
  rewrite Hp1 in Hp. rewrite Hq1 in Hq.
  exists (if inplace self
          then <[lo := mkArray [xBlocks; yBlocks; xSize; ySize] (Float4 r)]> s
          else s ++ [mkArray [xBlocks; yBlocks; xSize; ySize] (Float4 r)]),
         (if inplace self then lo else length s),
         r, before, between, after, ta, tb.
  split; [exact Hrun|]. split; [|split; [done|split; [done|]]].
  - destruct (inplace self).
    + apply list_lookup_insert_eq. by eapply lookup_lt_Some.
    + by apply list_lookup_middle.
  - intros m k Hm Hk. rewrite Hr by done. rewrite Hsplit.
    rewrite accumulate_app, accumulate_cons, accumulate_app, accumulate_cons.
    done.
Qed.

Lemma outer_collisions_accumulate_witness :
  exists (s' : store Z) (l : nat) (r : tensor4 Z)
         (before between after : list (nat * nat * nat))
         (ta tb : nat * nat * nat),
    CpuSparseBlockOuter.perform (mkOp ClsCpuSparseBlockOuter true)
      [0; 1; 2; 3; 4; 5] ex_outer_store
    = (s', inr l) /\
    s' !! l = Some (mkArray [1; 1; 2; 1] (Float4 r)) /\
    (ta = (0, 0, 0) /\ tb = (1, 0, 0) \/
     ta = (1, 0, 0) /\ tb = (0, 0, 0)) /\
    List.filter (addresses ex_outer_xIdx ex_outer_yIdx 0 0) (triples 2 1 1)
    = before ++ ta :: between ++ tb :: after /\
    forall m k, m < 2 -> k < 1 ->
      get4 r 0 0 m k
      = accumulate (outer_term ex_outer_x ex_outer_y m k) after
          (radd
             (accumulate (outer_term ex_outer_x ex_outer_y m k) between
                (radd
                   (accumulate (outer_term ex_outer_x ex_outer_y m k) before
                      (get4 ex_outer_o 0 0 m k))
                   (outer_term ex_outer_x ex_outer_y m k ta)))
             (outer_term ex_outer_x ex_outer_y m k tb)).
Proof.
  apply (outer_collisions_accumulate (mkOp ClsCpuSparseBlockOuter true)
           ex_outer_store 0 1 2 3 4 5 [] ex_outer_o ex_outer_x ex_outer_y
           ex_outer_xIdx ex_outer_yIdx 2%Z 2 1 1 2 1 1 1 0 0 0 1 0 0 0 0);
    try lia; try reflexivity.
  - constructor; reflexivity.
  - discriminate.
Defined.

(** C7: on valid arguments the entry point returns the output of a
    BlockGemv node whose accumulator input is the bias gathered at
    [outputIdx] (after inserting the batch axis into unbatched [h] and index
    tensors); and the gemv kernel run on the gathered bias rows returns, at
    [(b, j, k)], the bias entry of block [outputIdx[b, j]] to which the
    products of the input window have been added one after the other: the
    bias entry is the value the additions start from and occurs once,
    whatever the window's length. *)
Theorem sparse_block_dot_bias_once
    {R : Type} {HS : Scalar R}
    (discrete_dtypes : list string) (inpl : bool)
    (Wv hv iv bv ov : TensorVariable)
    (s : store R) (lo lW lh li lj : nat) (rest : list nat)
    (bias : matrix R) (o : tensor3 R) (W : tensor4 R) (h : tensor3 R)
    (iIdx oIdx : index2)
    (B oWin oSize iWin iSize iBlocks oBlocks : nat) :
  dot_types_ok discrete_dtypes Wv hv iv bv ov = true ->
  gemv_input s lo lW lh li lj o W h iIdx oIdx
             B oWin oSize iWin iSize iBlocks oBlocks ->
  shape2_ok oBlocks oSize bias = true ->
  numpy_take0 bias oIdx = inr o ->
  (inpl = true -> lo <> lh) ->
  (exists node,
     sparse_block_dot discrete_dtypes Wv hv iv bv ov inpl = inr (Output node) /\
     SparseBlockGemv.make_node discrete_dtypes (mkOp ClsSparseBlockGemv inpl)
       (Take bv (batched2 hv ov) 0) Wv (batched3 hv)
       (batched2 hv iv) (batched2 hv ov)
     = inr node /\
     node_inputs node
     = [Take bv (batched2 hv ov) 0; Wv; batched3 hv;
        batched2 hv iv; batched2 hv ov]) /\
  (exists (s' : store R) (l : nat) (r : tensor3 R),
     CpuSparseBlockGemv.perform (mkOp ClsCpuSparseBlockGemv inpl)
       (lo :: lW :: lh :: li :: lj :: rest) s
     = (s', inr l) /\
     s' !! l = Some (mkArray [B; oWin; oSize] (Float3 r)) /\
     forall b j k, b < B -> j < oWin -> k < oSize ->
       get3 r b j k
       = accumulate
           (fun i =>
              sum_n iSize (fun m =>
                rmul (get3 h b i m)
                     (get4 W (block_of iIdx b i) (block_of oIdx b j) m k)))
           (seq 0 iWin) (get2 bias (block_of oIdx b j) k)).
Proof.
  intros Hty Hin Hbias Htake Halias. split.
  - unfold dot_types_ok in Hty.
    repeat (apply andb_true_iff in Hty as [Hty ?]).
    match goal with Hd : gemv_dtypes_ok _ _ _ = true |- _ =>
      apply andb_true_iff in Hd as [Hdi Hdj] end.
    repeat match goal with Hn : (_ =? _) = true |- _ =>
      apply Nat.eqb_eq in Hn end.
    assert (Hmk : forall o' W' h' i' j',
              gemv_ranks_ok o' W' h' i' j' = true ->
              gemv_dtypes_ok discrete_dtypes i' j' = true ->
              exists node,
                SparseBlockGemv.call discrete_dtypes
                  (mkOp ClsSparseBlockGemv inpl) o' W' h' i' j'
                = inr (Output node) /\
                SparseBlockGemv.make_node discrete_dtypes
                  (mkOp ClsSparseBlockGemv inpl) o' W' h' i' j' = inr node /\
                node_inputs node = [o'; W'; h'; i'; j']).
    { intros o' W' h' i' j' Hr Hd. unfold SparseBlockGemv.call.
      rewrite gemv_make_node_ok by done. eexists. repeat split. }
    unfold sparse_block_dot, batched3, batched2.
    replace (Z.of_nat (ndim iv) =? Z.of_nat (ndim hv) - 1)%Z with true
      by (symmetry; apply Z.eqb_eq; lia).
    replace (ndim ov =? ndim iv) with true
      by (symmetry; apply Nat.eqb_eq; lia).
    simpl negb. cbv iota.
    destruct (ndim hv =? 2) eqn:Hh2.
    + apply Nat.eqb_eq in Hh2. apply Hmk.
      * apply gemv_ranks_ok_spec. unfold ndim in *. simpl.
        rewrite repeat_length. simpl. lia.
      * unfold gemv_dtypes_ok, var_dtype in *. simpl. by rewrite Hdi, Hdj.
    + match goal with Hor : _ || _ = true |- _ =>
        rewrite orb_false_r in Hor; apply Nat.eqb_eq in Hor; rename Hor into Hh3
      end.
      apply Hmk.
      * apply gemv_ranks_ok_spec. unfold ndim in *. simpl.
        rewrite repeat_length. lia.
      * unfold gemv_dtypes_ok. by rewrite Hdi, Hdj.
  - assert (Hmode : inplace (mkOp ClsCpuSparseBlockGemv inpl) = true -> lo <> lh)
      by exact Halias.
    destruct (gemv_perform_run (mkOp ClsCpuSparseBlockGemv inpl)
                s lo lW lh li lj rest o W h iIdx oIdx
                B oWin oSize iWin iSize iBlocks oBlocks Hin Hmode)
      as (r & Hrun & Hrok & Hr).
    destruct Hin as [Ho _ _ _ _ _ _ _ _ Hjok _ Hjr].
    destruct (numpy_take0_spec bias oIdx B oWin oBlocks oSize Hbias Hjok Hjr)
      as (o' & Htake' & _ & Hgather).
    assert (o' = o) as -> by congruence.
    eexists _, _, r. split; [exact Hrun|]. split.
    + simpl. destruct inpl.
      * apply list_lookup_insert_eq. by eapply lookup_lt_Some.
      * by apply list_lookup_middle.
    + intros b j k Hb Hj Hk. rewrite Hr by done. by rewrite Hgather.
Qed.

Lemma sparse_block_dot_bias_once_witness :
  (exists node,
     sparse_block_dot ex_dtypes ex_W ex_h ex_iIdx ex_b ex_oIdx false
     = inr (Output node) /\
     SparseBlockGemv.make_node ex_dtypes (mkOp ClsSparseBlockGemv false)
       (Take ex_b (batched2 ex_h ex_oIdx) 0) ex_W (batched3 ex_h)
       (batched2 ex_h ex_iIdx) (batched2 ex_h ex_oIdx)
     = inr node /\
     node_inputs node
     = [Take ex_b (batched2 ex_h ex_oIdx) 0; ex_W; batched3 ex_h;
        batched2 ex_h ex_iIdx; batched2 ex_h ex_oIdx]) /\
  (exists (s' : store Z) (l : nat) (r : tensor3 Z),
     CpuSparseBlockGemv.perform (mkOp ClsCpuSparseBlockGemv false)
       [0; 1; 2; 3; 4] ex_gemv_store
     = (s', inr l) /\
     s' !! l = Some (mkArray [1; 2; 2] (Float3 r)) /\
     forall b j k, b < 1 -> j < 2 -> k < 2 ->
       get3 r b j k
       = accumulate
           (fun i =>
              sum_n 3 (fun m =>
                rmul (get3 ex_gemv_h b i m)
                     (get4 ex_gemv_W (block_of ex_gemv_iIdx b i)
                                     (block_of ex_gemv_oIdx b j) m k)))
           (seq 0 2) (get2 ex_gemv_bias (block_of ex_gemv_oIdx b j) k)).
Proof.
  apply (sparse_block_dot_bias_once ex_dtypes false
           ex_W ex_h ex_iIdx ex_b ex_oIdx
           ex_gemv_store 0 1 2 3 4 [] ex_gemv_bias
           ex_gemv_o ex_gemv_W ex_gemv_h ex_gemv_iIdx ex_gemv_oIdx
           1 2 2 2 3 2 2).
  - reflexivity.
  - constructor; reflexivity.
  - reflexivity.
  - reflexivity.
  - discriminate.
Defined.

(** C8: on every valid input (for BlockGemv: with [o] not the object passed
    as [h]) the in-place and the copying kernel compute the same array [r].
    In place, [r] replaces [o]'s contents and [o]'s own location is
    returned, every other object unchanged; copying, [r] is a fresh object
    appended to the store, whose earlier objects, [o] among them, are
    unchanged. *)
Theorem inplace_copy_agree {R : Type} {HS : Scalar R}
    (self_in self_cp : Op) :
  inplace self_in = true ->
  inplace self_cp = false ->
  (forall (s : store R) (lo lW lh li lj : nat) (rest : list nat)
          (o : tensor3 R) (W : tensor4 R) (h : tensor3 R) (iIdx oIdx : index2)
          (B oWin oSize iWin iSize iBlocks oBlocks : nat),
     gemv_input s lo lW lh li lj o W h iIdx oIdx
                B oWin oSize iWin iSize iBlocks oBlocks ->
     lo <> lh ->
     exists r : tensor3 R,
       CpuSparseBlockGemv.perform self_in
         (lo :: lW :: lh :: li :: lj :: rest) s
       = (<[lo := mkArray [B; oWin; oSize] (Float3 r)]> s, inr lo) /\
       CpuSparseBlockGemv.perform self_cp
         (lo :: lW :: lh :: li :: lj :: rest) s
       = (s ++ [mkArray [B; oWin; oSize] (Float3 r)], inr (length s))) /\
  (forall (s : store R) (lo lx ly li lj la : nat) (rest : list nat)
          (o : tensor4 R) (x y : tensor3 R) (xIdx yIdx : index2) (alpha : R)
          (B xWin yWin xSize ySize xBlocks yBlocks : nat),
     outer_input s lo lx ly li lj la o x y xIdx yIdx alpha
                 B xWin yWin xSize ySize xBlocks yBlocks ->
     exists r : tensor4 R,
       CpuSparseBlockOuter.perform self_in
         (lo :: lx :: ly :: li :: lj :: la :: rest) s
       = (<[lo := mkArray [xBlocks; yBlocks; xSize; ySize] (Float4 r)]> s,
          inr lo) /\
       CpuSparseBlockOuter.perform self_cp
         (lo :: lx :: ly :: li :: lj :: la :: rest) s
       = (s ++ [mkArray [xBlocks; yBlocks; xSize; ySize] (Float4 r)],
          inr (length s))).
Proof.
  intros Hmin Hmcp. split.
  - intros s lo lW lh li lj rest o W h iIdx oIdx
      B oWin oSize iWin iSize iBlocks oBlocks Hin Hne.
    destruct (gemv_perform_run self_in s lo lW lh li lj rest o W h iIdx oIdx
                B oWin oSize iWin iSize iBlocks oBlocks Hin)
      as (r1 & Hrun1 & Hok1 & Hr1); [done|].
    destruct (gemv_perform_run self_cp s lo lW lh li lj rest o W h iIdx oIdx
                B oWin oSize iWin iSize iBlocks oBlocks Hin)
      as (r2 & Hrun2 & Hok2 & Hr2); [by rewrite Hmcp|].
    rewrite Hmin in Hrun1. rewrite Hmcp in Hrun2.
    assert (r2 = r1) as ->.
    { apply (tensor3_ext B oWin oSize); [done|done|].
      intros b j k Hb Hj Hk. by rewrite Hr1, Hr2. }
    exists r1. done.
  - intros s lo lx ly li lj la rest o x y xIdx yIdx alpha
      B xWin yWin xSize ySize xBlocks yBlocks Hin.
    destruct (outer_perform_run self_in s lo lx ly li lj la rest o x y
                xIdx yIdx alpha B xWin yWin xSize ySize xBlocks yBlocks Hin)
      as (r1 & Hrun1 & Hok1 & Hr1).
    destruct (outer_perform_run self_cp s lo lx ly li lj la rest o x y
                xIdx yIdx alpha B xWin yWin xSize ySize xBlocks yBlocks Hin)
      as (r2 & Hrun2 & Hok2 & Hr2).
    rewrite Hmin in Hrun1. rewrite Hmcp in Hrun2.
    assert (r2 = r1) as ->.
    { apply (tensor4_ext xBlocks yBlocks xSize ySize); [done|done|].
      intros p q m k Hp Hq Hm Hk. by rewrite Hr1, Hr2. }
    exists r1. done.
Qed.

Lemma inplace_copy_agree_witness :
  (exists r : tensor3 Z,
     CpuSparseBlockGemv.perform (mkOp ClsCpuSparseBlockGemv true)
       [0; 1; 2; 3; 4] ex_gemv_store
     = (<[0 := mkArray [1; 2; 2] (Float3 r)]> ex_gemv_store, inr 0) /\
     CpuSparseBlockGemv.perform (mkOp ClsCpuSparseBlockGemv false)
       [0; 1; 2; 3; 4] ex_gemv_store
     = (ex_gemv_store ++ [mkArray [1; 2; 2] (Float3 r)], inr 5)) /\
  (exists r : tensor4 Z,
     CpuSparseBlockOuter.perform (mkOp ClsCpuSparseBlockGemv true)
       [0; 1; 2; 3; 4; 5] ex_outer_store
     = (<[0 := mkArray [1; 1; 2; 1] (Float4 r)]> ex_outer_store, inr 0) /\
     CpuSparseBlockOuter.perform (mkOp ClsCpuSparseBlockGemv false)
       [0; 1; 2; 3; 4; 5] ex_outer_store
     = (ex_outer_store ++ [mkArray [1; 1; 2; 1] (Float4 r)], inr 6)).
Proof.
  destruct (inplace_copy_agree (R := Z)
              (mkOp ClsCpuSparseBlockGemv true)
              (mkOp ClsCpuSparseBlockGemv false) eq_refl eq_refl)
    as [Hgemv Houter].
  split.
  - apply (Hgemv ex_gemv_store 0 1 2 3 4 [] ex_gemv_o ex_gemv_W ex_gemv_h
             ex_gemv_iIdx ex_gemv_oIdx 1 2 2 2 3 2 2).
    + constructor; reflexivity.
    + lia.
  - apply (Houter ex_outer_store 0 1 2 3 4 5 [] ex_outer_o ex_outer_x
             ex_outer_y ex_outer_xIdx ex_outer_yIdx 2%Z 2 1 1 2 1 1 1).
    constructor; reflexivity.
Defined.

(** * Further properties of the kernels *)

(** ** Index values outside [0, n) *)

(** X1: on arrays of the documented shapes and whatever index values (in
    place: with [o] not the object passed as [h]), the gemv kernel makes
    the passes [(b, j, i)] of its loops in order as long as both index
    values of a pass lie in [-n, n); a negative value addresses the block
    counted from the end.  When every pass is accepted it returns the
    array; at the first rejected pass it raises [IndexError].  In both
    cases the array [a], which replaces [o] in place or is a fresh copy,
    holds at row [(b, j)] the row of [o] with the products of the passes
    made for that row added one after the other, and no other object of
    the store has changed. *)
Theorem gemv_perform_outcome {R : Type} {HS : Scalar R}
    (self : Op) (s : store R)
    (lo lW lh li lj : nat) (rest : list nat)
    (o : tensor3 R) (W : tensor4 R) (h : tensor3 R) (iIdx oIdx : index2)
    (B oWin oSize iWin iSize iBlocks oBlocks : nat) :
  gemv_arrays s lo lW lh li lj o W h iIdx oIdx
              B oWin oSize iWin iSize iBlocks oBlocks ->
  (inplace self = true -> lo <> lh) ->
  exists a : tensor3 R,
    CpuSparseBlockGemv.perform self (lo :: lW :: lh :: li :: lj :: rest) s
    = (if inplace self
       then <[lo := mkArray [B; oWin; oSize] (Float3 a)]> s
       else s ++ [mkArray [B; oWin; oSize] (Float3 a)],
       if gemv_indices_ok iBlocks oBlocks iIdx oIdx B oWin iWin
       then inr (if inplace self then lo else length s)
       else inl IndexError) /\
    shape3_ok B oWin oSize a = true /\
    (forall b j k, b < B -> j < oWin -> k < oSize ->
       get3 a b j k
       = accumulate (gemv_term_w iSize iBlocks oBlocks h W iIdx oIdx k)
           (List.filter (in_row b j)
              (take_while (gemv_pair_ok iBlocks oBlocks iIdx oIdx)
                 (gemv_triples B oWin iWin)))
           (get3 o b j k)).
Proof.
  intros Harr Halias.
  exact (gemv_perform_cases self s lo lW lh li lj rest o W h iIdx oIdx
           B oWin oSize iWin iSize iBlocks oBlocks Harr Halias).
Qed.

(** On the example with the input index -1 the kernel completes, in place.
    On the example with the output index 2 it raises [IndexError] after the
    two passes of row (0, 0), whose products are in the copy; row (0, 1)
    of the copy is that of [o]. *)
Lemma gemv_perform_outcome_witness :
  (exists a : tensor3 Z,
     CpuSparseBlockGemv.perform (mkOp ClsCpuSparseBlockGemv true)
       [0; 1; 2; 3; 4] wrap_gemv_store
     = (<[0 := mkArray [1; 2; 2] (Float3 a)]> wrap_gemv_store, inr 0) /\
     shape3_ok 1 2 2 a = true /\
     (forall b j k, b < 1 -> j < 2 -> k < 2 ->
        get3 a b j k
        = accumulate
            (gemv_term_w 3 2 2 ex_gemv_h ex_gemv_W
               wrap_gemv_iIdx ex_gemv_oIdx k)
            (List.filter (in_row b j)
               [(0, 0, 0); (0, 0, 1); (0, 1, 0); (0, 1, 1)])
            (get3 ex_gemv_o b j k))) /\
  (exists a : tensor3 Z,
     CpuSparseBlockGemv.perform (mkOp ClsCpuSparseBlockGemv false)
       [0; 1; 2; 3; 4] bad_gemv_store
     = (bad_gemv_store ++ [mkArray [1; 2; 2] (Float3 a)], inl IndexError) /\
     shape3_ok 1 2 2 a = true /\
     (forall b j k, b < 1 -> j < 2 -> k < 2 ->
        get3 a b j k
        = accumulate
            (gemv_term_w 3 2 2 ex_gemv_h ex_gemv_W
               ex_gemv_iIdx bad_gemv_oIdx k)
            (List.filter (in_row b j) [(0, 0, 0); (0, 0, 1)])
            (get3 ex_gemv_o b j k))).
Proof.
  split.
  - apply (gemv_perform_outcome (mkOp ClsCpuSparseBlockGemv true)
             wrap_gemv_store 0 1 2 3 4 [] ex_gemv_o ex_gemv_W ex_gemv_h
             wrap_gemv_iIdx ex_gemv_oIdx 1 2 2 2 3 2 2).
    + constructor; reflexivity.
    + intros _. lia.
  - apply (gemv_perform_outcome (mkOp ClsCpuSparseBlockGemv false)
             bad_gemv_store 0 1 2 3 4 [] ex_gemv_o ex_gemv_W ex_gemv_h
             ex_gemv_iIdx bad_gemv_oIdx 1 2 2 2 3 2 2).
    + constructor; reflexivity.
    + discriminate.
Defined.

(** X2: on arrays of the documented shapes and whatever index values, the
    outer-product kernel makes the passes [(b, i, j)] of its loops in order
    as long as both index values of a pass lie in [-n, n); a negative value
    addresses the block counted from the end.  When every pass is accepted
    it returns the array; at the first rejected pass it raises
    [IndexError].  In both cases the array [a], which replaces [o] in place
    or is a fresh copy, holds at every entry of block [(p, q)] the entry of
    [o] with the outer-product entries of the passes made that address the
    block added one after the other, and no other object of the store has
    changed.  The sixth input, [alpha], is never dereferenced: its location
    is arbitrary. *)
Theorem outer_perform_outcome {R : Type} {HS : Scalar R}
    (self : Op) (s : store R)
    (lo lx ly li lj la : nat) (rest : list nat)
    (o : tensor4 R) (x y : tensor3 R) (xIdx yIdx : index2)
    (B xWin yWin xSize ySize xBlocks yBlocks : nat) :
  outer_arrays s lo lx ly li lj o x y xIdx yIdx
               B xWin yWin xSize ySize xBlocks yBlocks ->
  exists a : tensor4 R,
    CpuSparseBlockOuter.perform self
      (lo :: lx :: ly :: li :: lj :: la :: rest) s
    = (if inplace self
       then <[lo := mkArray [xBlocks; yBlocks; xSize; ySize] (Float4 a)]> s
       else s ++ [mkArray [xBlocks; yBlocks; xSize; ySize] (Float4 a)],
       if outer_indices_ok xBlocks yBlocks xIdx yIdx B xWin yWin
       then inr (if inplace self then lo else length s)
       else inl IndexError) /\
    shape4_ok xBlocks yBlocks xSize ySize a = true /\
    (forall p q m k, p < xBlocks -> q < yBlocks -> m < xSize -> k < ySize ->
       get4 a p q m k
       = accumulate (outer_term x y m k)
           (List.filter (addresses_w xBlocks yBlocks xIdx yIdx p q)
              (take_while (outer_pair_ok xBlocks yBlocks xIdx yIdx)
                 (triples B xWin yWin)))
           (get4 o p q m k)).
Proof.
  intros Harr.
  exact (outer_perform_cases self s lo lx ly li lj la rest o x y xIdx yIdx
           B xWin yWin xSize ySize xBlocks yBlocks Harr).
Qed.

(** On the example with the x index -1 the kernel completes; on the example
    with the y index 1 in the second batch entry it raises [IndexError]
    after the pass of the first batch entry, whose outer product is in
    [o]. *)
Lemma outer_perform_outcome_witness :
  (exists a : tensor4 Z,
     CpuSparseBlockOuter.perform (mkOp ClsCpuSparseBlockOuter false)
       [0; 1; 2; 3; 4; 9] wrap_outer_store
     = (wrap_outer_store ++ [mkArray [1; 1; 2; 1] (Float4 a)], inr 5) /\
     shape4_ok 1 1 2 1 a = true /\
     (forall p q m k, p < 1 -> q < 1 -> m < 2 -> k < 1 ->
        get4 a p q m k
        = accumulate (outer_term ex_outer_x ex_outer_y m k)
            (List.filter (addresses_w 1 1 wrap_outer_xIdx ex_outer_yIdx p q)
               [(0, 0, 0); (1, 0, 0)])
            (get4 ex_outer_o p q m k))) /\
  (exists a : tensor4 Z,
     CpuSparseBlockOuter.perform (mkOp ClsCpuSparseBlockOuter true)
       [0; 1; 2; 3; 4; 9] bad_outer_store
     = (<[0 := mkArray [1; 1; 2; 1] (Float4 a)]> bad_outer_store,
        inl IndexError) /\
     shape4_ok 1 1 2 1 a = true /\
     (forall p q m k, p < 1 -> q < 1 -> m < 2 -> k < 1 ->
        get4 a p q m k
        = accumulate (outer_term ex_outer_x ex_outer_y m k)
            (List.filter (addresses_w 1 1 ex_outer_xIdx bad_outer_yIdx p q)
               [(0, 0, 0)])
            (get4 ex_outer_o p q m k))).
Proof.
  split.
  - apply (outer_perform_outcome (mkOp ClsCpuSparseBlockOuter false)
             wrap_outer_store 0 1 2 3 4 9 [] ex_outer_o ex_outer_x ex_outer_y
             wrap_outer_xIdx ex_outer_yIdx 2 1 1 2 1 1 1).
    constructor; reflexivity.
  - apply (outer_perform_outcome (mkOp ClsCpuSparseBlockOuter true)
             bad_outer_store 0 1 2 3 4 9 [] ex_outer_o ex_outer_x ex_outer_y
             ex_outer_xIdx bad_outer_yIdx 2 1 1 2 1 1 1).
    constructor; reflexivity.
Defined.

(** ** Consequences for the kernels *)

Section KernelConsequences.

Context {R : Type} {HS : Scalar R}.

(** X3: with an empty input window the gemv kernel returns [o]'s values
    unchanged, in place without altering the store and otherwise as a fresh
    copy; the output indices are read and never checked, so they may hold
    any values. *)
Theorem gemv_empty_input_window (self : Op) (s : store R)
    (lo lW lh li lj : nat) (rest : list nat)
    (o : tensor3 R) (W : tensor4 R) (h : tensor3 R) (iIdx oIdx : index2)
    (B oWin oSize iSize iBlocks oBlocks : nat) :
  gemv_arrays s lo lW lh li lj o W h iIdx oIdx
              B oWin oSize 0 iSize iBlocks oBlocks ->
  (inplace self = true -> lo <> lh) ->
  CpuSparseBlockGemv.perform self (lo :: lW :: lh :: li :: lj :: rest) s
  = (if inplace self then s
     else s ++ [mkArray [B; oWin; oSize] (Float3 o)],
     inr (if inplace self then lo else length s)).
Proof.
  intros Harr Halias.
  destruct (gemv_perform_cases self s lo lW lh li lj rest o W h iIdx oIdx
              B oWin oSize 0 iSize iBlocks oBlocks Harr Halias)
    as (a & Hrun & Haok & Ha).
  assert (Hnil : gemv_triples B oWin 0 = []).
  { unfold gemv_triples. apply bind_nil_all. intros b.
    by apply bind_nil_all. }
  unfold gemv_indices_ok in Hrun. rewrite Hnil in Hrun, Ha.
  destruct Harr as [Ho _ _ _ _ Hook _ _ _ _].
  assert (a = o) as ->.
  { apply (tensor3_ext B oWin oSize); [done|done|].
    intros b j k Hb Hj Hk. by rewrite Ha. }
  rewrite Hrun. simpl. destruct (inplace self); [|done].
  by rewrite (list_insert_id s lo _ Ho).
Qed.

(** X5: a block of [o] that no triple [(b, i, j)] addresses comes out of the
    outer-product kernel with every entry unchanged. *)
Theorem outer_unaddressed_block_unchanged (self : Op) (s : store R)
    (lo lx ly li lj la : nat) (rest : list nat)
    (o : tensor4 R) (x y : tensor3 R) (xIdx yIdx : index2) (alpha : R)
    (B xWin yWin xSize ySize xBlocks yBlocks : nat) (p q : nat) :
  outer_input s lo lx ly li lj la o x y xIdx yIdx alpha
              B xWin yWin xSize ySize xBlocks yBlocks ->
  p < xBlocks -> q < yBlocks ->
  (forall b i j, b < B -> i < xWin -> j < yWin ->
     block_of xIdx b i <> p \/ block_of yIdx b j <> q) ->
  exists (s' : store R) (l : nat) (r : tensor4 R),
    CpuSparseBlockOuter.perform self
      (lo :: lx :: ly :: li :: lj :: la :: rest) s
    = (s', inr l) /\
    s' !! l = Some (mkArray [xBlocks; yBlocks; xSize; ySize] (Float4 r)) /\
    forall m k, m < xSize -> k < ySize -> get4 r p q m k = get4 o p q m k.
Proof.
  intros Hin Hp Hq Hmiss.
  destruct (outer_perform_run self s lo lx ly li lj la rest o x y xIdx yIdx
              alpha B xWin yWin xSize ySize xBlocks yBlocks Hin)
    as (r & Hrun & Hrok & Hr).
  destruct Hin as [Ho _ _ _ _ _ _ _ _ _ _ _ _].
  eexists _, _, r. split; [exact Hrun|]. split.
  - destruct (inplace self).
    + apply list_lookup_insert_eq. by eapply lookup_lt_Some.
    + by apply list_lookup_middle.
  - intros m k Hm Hk. rewrite Hr by done.
    rewrite filter_none; [done|].
    intros [[b i] j] Ht. apply elem_of_triples in Ht as (Hb & Hi & Hj).
    simpl.
    destruct (Hmiss b i j Hb Hi Hj) as [Hne|Hne];
      apply Nat.eqb_neq in Hne; rewrite Hne; [done|apply andb_false_r].
Qed.

(** X6: the outer-product kernel returns the same array whatever scalar is
    passed as [alpha]: replacing the [alpha] object changes neither the
    values computed nor, apart from that object, the store left behind. *)
Theorem outer_perform_ignores_alpha (self : Op) (s : store R)
    (lo lx ly li lj la : nat) (rest : list nat)
    (o : tensor4 R) (x y : tensor3 R) (xIdx yIdx : index2) (alpha alpha' : R)
    (B xWin yWin xSize ySize xBlocks yBlocks : nat) :
  outer_input s lo lx ly li lj la o x y xIdx yIdx alpha
              B xWin yWin xSize ySize xBlocks yBlocks ->
  exists r : tensor4 R,
    CpuSparseBlockOuter.perform self
      (lo :: lx :: ly :: li :: lj :: la :: rest) s
    = (if inplace self
       then <[lo := mkArray [xBlocks; yBlocks; xSize; ySize] (Float4 r)]> s
       else s ++ [mkArray [xBlocks; yBlocks; xSize; ySize] (Float4 r)],
       inr (if inplace self then lo else length s)) /\
    CpuSparseBlockOuter.perform self
      (lo :: lx :: ly :: li :: lj :: la :: rest)
      (<[la := mkArray [] (Float0 alpha')]> s)
    = (if inplace self
       then <[lo := mkArray [xBlocks; yBlocks; xSize; ySize] (Float4 r)]>
              (<[la := mkArray [] (Float0 alpha')]> s)
       else <[la := mkArray [] (Float0 alpha')]> s
            ++ [mkArray [xBlocks; yBlocks; xSize; ySize] (Float4 r)],
       inr (if inplace self then lo else length s)).
Proof.
  intros Hin.
  destruct (outer_perform_run self s lo lx ly li lj la rest o x y xIdx yIdx
              alpha B xWin yWin xSize ySize xBlocks yBlocks Hin)
    as (r & Hrun & Hrok & Hr).
  destruct Hin as [Ho Hx Hy Hi Hj Ha Hook Hxok Hyok Hiok Hjok Hir Hjr].
  assert (Hin' : outer_input (<[la := mkArray [] (Float0 alpha')]> s)
                   lo lx ly li lj la o x y xIdx yIdx alpha'
                   B xWin yWin xSize ySize xBlocks yBlocks).
  { constructor; try done;
      try (rewrite list_lookup_insert_ne; [done|]; intros ->; congruence).
    apply list_lookup_insert_eq. by eapply lookup_lt_Some. }
  destruct (outer_perform_run self _ lo lx ly li lj la rest o x y xIdx yIdx
              alpha' B xWin yWin xSize ySize xBlocks yBlocks Hin')
    as (r' & Hrun' & Hrok' & Hr').
  assert (r' = r) as ->.
  { apply (tensor4_ext xBlocks yBlocks xSize ySize); [done|done|].
    intros p q m k Hp Hq Hm Hk. by rewrite Hr, Hr'. }
  exists r. split; [exact Hrun|]. rewrite Hrun'. by rewrite length_insert.
Qed.

End KernelConsequences.

Lemma gemv_empty_input_window_witness :
  CpuSparseBlockGemv.perform (mkOp ClsCpuSparseBlockGemv false)
    [0; 1; 2; 3; 4] empty_gemv_store
  = (empty_gemv_store ++ [mkArray [1; 2; 2] (Float3 ex_gemv_o)], inr 5).
Proof.
  apply (gemv_empty_input_window (mkOp ClsCpuSparseBlockGemv false)
           empty_gemv_store 0 1 2 3 4 [] ex_gemv_o ex_gemv_W [[]] [[]]
           [[7; -9]]%Z 1 2 2 3 2 2).
  - constructor; reflexivity.
  - discriminate.
Defined.

Lemma outer_unaddressed_block_unchanged_witness :
  exists (s' : store Z) (l : nat) (r : tensor4 Z),
    CpuSparseBlockOuter.perform (mkOp ClsCpuSparseBlockOuter true)
      [0; 1; 2; 3; 4; 5] sparse_outer_store
    = (s', inr l) /\
    s' !! l = Some (mkArray [2; 1; 2; 1] (Float4 r)) /\
    forall m k, m < 2 -> k < 1 -> get4 r 1 0 m k = get4 sparse_outer_o 1 0 m k.
Proof.
  apply (outer_unaddressed_block_unchanged (mkOp ClsCpuSparseBlockOuter true)
           sparse_outer_store 0 1 2 3 4 5 [] sparse_outer_o ex_outer_x
           ex_outer_y ex_outer_xIdx ex_outer_yIdx 2%Z 2 1 1 2 1 2 1 1 0).
  - constructor; reflexivity.
  - lia.
  - lia.
  - intros b i j Hb Hi Hj. left.
    assert (i = 0) as -> by lia.
    destruct b as [|[|b]]; [vm_compute; lia|vm_compute; lia|lia].
Defined.

Lemma outer_perform_ignores_alpha_witness :
  exists r : tensor4 Z,
    CpuSparseBlockOuter.perform (mkOp ClsCpuSparseBlockOuter false)
      [0; 1; 2; 3; 4; 5] ex_outer_store
    = (ex_outer_store ++ [mkArray [1; 1; 2; 1] (Float4 r)], inr 6) /\
    CpuSparseBlockOuter.perform (mkOp ClsCpuSparseBlockOuter false)
      [0; 1; 2; 3; 4; 5] (<[5 := mkArray [] (Float0 7%Z)]> ex_outer_store)
    = (<[5 := mkArray [] (Float0 7%Z)]> ex_outer_store
       ++ [mkArray [1; 1; 2; 1] (Float4 r)], inr 6).
Proof.
  apply (outer_perform_ignores_alpha (mkOp ClsCpuSparseBlockOuter false)
           ex_outer_store 0 1 2 3 4 5 [] ex_outer_o ex_outer_x ex_outer_y
           ex_outer_xIdx ex_outer_yIdx 2%Z 7%Z 2 1 1 2 1 1 1).
  constructor; reflexivity.
Defined.

(** ** Further properties of the graph layer *)

Section GraphAcceptance.

Context (discrete_dtypes : list string).

Lemma gemv_make_node_inv (self : Op)
    (o W h inputIdx outputIdx : TensorVariable) (node : Apply) :
  SparseBlockGemv.make_node discrete_dtypes self o W h inputIdx outputIdx
  = inr node ->
  gemv_ranks_ok o W h inputIdx outputIdx = true /\
  gemv_dtypes_ok discrete_dtypes inputIdx outputIdx = true.
Proof.
  unfold SparseBlockGemv.make_node, as_tensor_variable,
    gemv_ranks_ok, gemv_dtypes_ok.
  destruct (ndim o =? 3); [|done].
  destruct (ndim W =? 4); [|done].
  destruct (ndim h =? 3); [|done].
  destruct (ndim inputIdx =? 2); [|done].
  destruct (ndim outputIdx =? 2); [|done].
  destruct (dtype_in (var_dtype inputIdx) discrete_dtypes); [|done].
  destruct (dtype_in (var_dtype outputIdx) discrete_dtypes); [|done].
  done.
Qed.

(** X7: BlockGemv's [make_node] builds a node exactly when [o] has rank 3,
    [W] rank 4, [h] rank 3 and both index tensors rank 2 with an integral
    dtype.  The node then has the five arguments, in order, as inputs and
    one output of [o]'s dtype and rank 3 with no broadcastable axis,
    whatever [o]'s own broadcast pattern. *)
Theorem gemv_make_node_accepts_iff (self : Op)
    (o W h inputIdx outputIdx : TensorVariable) (node : Apply) :
  SparseBlockGemv.make_node discrete_dtypes self o W h inputIdx outputIdx
  = inr node
  <->
  gemv_ranks_ok o W h inputIdx outputIdx = true /\
  gemv_dtypes_ok discrete_dtypes inputIdx outputIdx = true /\
  node = mkApply self [o; W; h; inputIdx; outputIdx]
           (mkTensorType (var_dtype o) [false; false; false]).
Proof.
  split.
  - intros Hmk.
    destruct (gemv_make_node_inv self o W h inputIdx outputIdx node Hmk)
      as [Hr Hd].
    rewrite (gemv_make_node_ok discrete_dtypes self o W h inputIdx outputIdx
               Hr Hd) in Hmk.
    injection Hmk as <-. done.
  - intros (Hr & Hd & ->). by apply gemv_make_node_ok.
Qed.

(** X8: the entry point returns a variable exactly when [W] has rank 4, the
    bias rank 2, [h] rank 3 or 2, and both index tensors are one rank below
    [h] with an integral dtype.  The variable is then the output of a
    BlockGemv node on the gathered bias and the batched arguments; it has
    the bias's dtype and rank 3 also when [h] was passed unbatched: the
    inserted batch axis is not removed again. *)
Theorem sparse_block_dot_accepts_iff (inpl : bool)
    (W h inputIdx b outputIdx : TensorVariable) (v : TensorVariable) :
  sparse_block_dot discrete_dtypes W h inputIdx b outputIdx inpl = inr v
  <->
  dot_types_ok discrete_dtypes W h inputIdx b outputIdx = true /\
  v = Output (mkApply (mkOp ClsSparseBlockGemv inpl)
                [Take b (batched2 h outputIdx) 0; W; batched3 h;
                 batched2 h inputIdx; batched2 h outputIdx]
                (mkTensorType (var_dtype b) [false; false; false])).
Proof.
  assert (Hcall : forall o' W' h' i' j' v',
            SparseBlockGemv.call discrete_dtypes (mkOp ClsSparseBlockGemv inpl)
              o' W' h' i' j' = inr v' ->
            gemv_ranks_ok o' W' h' i' j' = true /\
            gemv_dtypes_ok discrete_dtypes i' j' = true /\
            v' = Output (mkApply (mkOp ClsSparseBlockGemv inpl)
                           [o'; W'; h'; i'; j']
                           (mkTensorType (var_dtype o') [false; false; false]))).
  { intros o' W' h' i' j' v'. unfold SparseBlockGemv.call.
    destruct (SparseBlockGemv.make_node discrete_dtypes
                (mkOp ClsSparseBlockGemv inpl) o' W' h' i' j') as [e|node] eqn:Hmk;
      [done|].
    simpl. intros [= <-].
    destruct (gemv_make_node_inv _ _ _ _ _ _ _ Hmk) as [Hr Hd].
    rewrite (gemv_make_node_ok discrete_dtypes _ _ _ _ _ _ Hr Hd) in Hmk.
    injection Hmk as <-. done. }
  split.
  - unfold sparse_block_dot, batched3, batched2, dot_types_ok.
    destruct (Z.of_nat (ndim inputIdx) =? Z.of_nat (ndim h) - 1)%Z eqn:Ha1;
      [|done].
    destruct (ndim outputIdx =? ndim inputIdx) eqn:Ha2; [|done].
    apply Z.eqb_eq in Ha1. apply Nat.eqb_eq in Ha2.
    simpl negb. cbv iota.
    destruct (ndim h =? 2) eqn:Hh2.
    + apply Nat.eqb_eq in Hh2. intros Hv.
      apply Hcall in Hv as (Hr & Hd & ->).
      apply gemv_ranks_ok_spec in Hr as (Ho & HW & _ & _ & _).
      split; [|done].
      unfold ndim in Ho. simpl in Ho. rewrite repeat_length in Ho.
      simpl in Ho. fold (ndim outputIdx) in Ho. fold (ndim b) in Ho.
      unfold gemv_dtypes_ok, var_dtype in Hd. simpl in Hd.
      fold (var_dtype inputIdx) in Hd. fold (var_dtype outputIdx) in Hd.
      rewrite HW, Hh2. simpl.
      replace (ndim b =? 2) with true by (symmetry; apply Nat.eqb_eq; lia).
      replace (ndim inputIdx + 1 =? 2) with true
        by (symmetry; apply Nat.eqb_eq; lia).
      replace (ndim outputIdx + 1 =? 2) with true
        by (symmetry; apply Nat.eqb_eq; lia).
      exact Hd.
    + intros Hv. apply Hcall in Hv as (Hr & Hd & ->).
      apply gemv_ranks_ok_spec in Hr as (Ho & HW & Hh3 & Hi & Hj).
      split; [|done].
      unfold ndim in Ho. simpl in Ho. rewrite repeat_length in Ho.
      fold (ndim outputIdx) in Ho. fold (ndim b) in Ho.
      rewrite HW, Hh3, Hi, Hj. simpl.
      replace (ndim b =? 2) with true by (symmetry; apply Nat.eqb_eq; lia).
      exact Hd.
  - intros [Hty ->].
    unfold dot_types_ok in Hty.
    repeat (apply andb_true_iff in Hty as [Hty ?]).
    match goal with Hd : gemv_dtypes_ok _ _ _ = true |- _ =>
      pose proof Hd as Hd'; apply andb_true_iff in Hd' as [Hdi Hdj] end.
    repeat match goal with Hn : (_ =? _) = true |- _ =>
      apply Nat.eqb_eq in Hn end.
    unfold sparse_block_dot, batched3, batched2.
    replace (Z.of_nat (ndim inputIdx) =? Z.of_nat (ndim h) - 1)%Z with true
      by (symmetry; apply Z.eqb_eq; lia).
    replace (ndim outputIdx =? ndim inputIdx) with true
      by (symmetry; apply Nat.eqb_eq; lia).
    simpl negb. cbv iota.
    destruct (ndim h =? 2) eqn:Hh2.
    + apply Nat.eqb_eq in Hh2. unfold SparseBlockGemv.call.
      rewrite gemv_make_node_ok; [done| |].
      * apply gemv_ranks_ok_spec. unfold ndim in *. simpl.
        rewrite repeat_length. simpl. lia.
      * unfold gemv_dtypes_ok, var_dtype in *. simpl. by rewrite Hdi, Hdj.
    + match goal with Hor : _ || _ = true |- _ =>
        rewrite orb_false_r in Hor; apply Nat.eqb_eq in Hor; rename Hor into Hh3
      end.
      unfold SparseBlockGemv.call.
      rewrite gemv_make_node_ok; [done| |].
      * apply gemv_ranks_ok_spec. unfold ndim in *. simpl.
        rewrite repeat_length. lia.
      * unfold gemv_dtypes_ok. by rewrite Hdi, Hdj.
Qed.

(** X9: on an otherwise valid node, an upstream gradient whose rank is not
    3 makes the gradient rule fail as a whole: the node for the gradient
    with respect to [W] is built, then the BlockGemv call for [h], which
    receives [go] in the place of [h], raises the [TypeError] that names
    [h]. *)
Theorem gemv_grad_rejects_bad_go (self : Op)
    (o W h inputIdx outputIdx go : TensorVariable) :
  gemv_ranks_ok o W h inputIdx outputIdx = true ->
  gemv_dtypes_ok discrete_dtypes inputIdx outputIdx = true ->
  ndim go <> 3 ->
  SparseBlockGemv.grad discrete_dtypes self
    [o; W; h; inputIdx; outputIdx] [go]
  = inl (TypeError "The input h must be a 3D tensor").
Proof.
  intros Hr Hd Hgo.
  apply gemv_ranks_ok_spec in Hr as (Ho & HW & Hh & Hi & Hj).
  unfold SparseBlockGemv.grad, SparseBlockGemv.call,
    SparseBlockOuter.call, SparseBlockOuter.make_node, as_tensor_variable.
  simpl rbind.
  unfold SparseBlockGemv.make_node, as_tensor_variable.
  replace (ndim (ZerosLike h)) with 3 by (symmetry; exact Hh).
  replace (ndim (DimShuffle [Dn 1; Dn 0; Dn 3; Dn 2] W)) with 4 by reflexivity.
  apply Nat.eqb_neq in Hgo. rewrite Hgo. reflexivity.
Qed.

(** X12: on a valid node with an upstream gradient of rank 3, the gradient
    rule returns five entries, one per input and in input order; the two
    for the index tensors are undefined-gradient markers that name
    positions 3 and 4 and the index variables themselves. *)
Theorem gemv_grad_index_undefined (self : Op)
    (o W h inputIdx outputIdx go : TensorVariable) :
  gemv_ranks_ok o W h inputIdx outputIdx = true ->
  gemv_dtypes_ok discrete_dtypes inputIdx outputIdx = true ->
  ndim go = 3 ->
  exists g0 g1 g2 : TensorVariable,
    SparseBlockGemv.grad discrete_dtypes self
      [o; W; h; inputIdx; outputIdx] [go]
    = inr [GradTensor g0; GradTensor g1; GradTensor g2;
           GradUndefined self 3 inputIdx "grad of inputIdx makes no sense";
           GradUndefined self 4 outputIdx "grad of outputIdx makes no sense"].
Proof.
  intros Hr Hd Hgo.
  pose proof Hr as Hr'.
  apply gemv_ranks_ok_spec in Hr' as (Ho & _).
  do 3 eexists.
  apply (gemv_grad_run discrete_dtypes self o W h inputIdx outputIdx go Hr Hd).
  by rewrite Hgo, Ho.
Qed.

End GraphAcceptance.

Lemma gemv_grad_rejects_bad_go_witness :
  SparseBlockGemv.grad ex_dtypes (mkOp ClsSparseBlockGemv false)
    [ex_o; ex_W; ex_h; ex_iIdx; ex_oIdx] [ex_b]
  = inl (TypeError "The input h must be a 3D tensor").
Proof.
  apply (gemv_grad_rejects_bad_go ex_dtypes (mkOp ClsSparseBlockGemv false)
           ex_o ex_W ex_h ex_iIdx ex_oIdx ex_b).
  - reflexivity.
  - reflexivity.
  - vm_compute. lia.
Defined.

Lemma gemv_grad_index_undefined_witness :
  exists g0 g1 g2 : TensorVariable,
    SparseBlockGemv.grad ex_dtypes (mkOp ClsCpuSparseBlockGemv true)
      [ex_o; ex_W; ex_h; ex_iIdx; ex_oIdx] [ex_go]
    = inr [GradTensor g0; GradTensor g1; GradTensor g2;
           GradUndefined (mkOp ClsCpuSparseBlockGemv true) 3 ex_iIdx
             "grad of inputIdx makes no sense";
           GradUndefined (mkOp ClsCpuSparseBlockGemv true) 4 ex_oIdx
             "grad of outputIdx makes no sense"].
Proof.
  apply (gemv_grad_index_undefined ex_dtypes (mkOp ClsCpuSparseBlockGemv true)
           ex_o ex_W ex_h ex_iIdx ex_oIdx ex_go); reflexivity.
Defined.
